(** * MinetCreate: network expansion, graph construction and KEGG/MINE
    integration, embedded from [MinetCreate.py].

    Python dictionaries are [gmap]s, Python sets are [gset]s, record
    dictionaries (compounds and reactions) are a record of optional fields,
    and a function that can raise returns a [Result]. *)

From Stdlib Require Import ZArith Lia Ascii String.
From stdpp Require Import gmap strings list fin_maps sorting.

Local Open Scope string_scope.
Local Open Scope Z_scope.

(** ** Exceptions *)

Inductive PyExc : Type :=
  | KeyError
  | IndexError
  | NameError
  | TypeError
  | UnboundLocalError
  | ZeroDivisionError
  | NetworkXError.

Inductive Result (A : Type) : Type :=
  | Ok (a : A)
  | Raise (e : PyExc).

Arguments Ok {A} a.
Arguments Raise {A} e.

Definition bind {A B : Type} (r : Result A) (k : A -> Result B) : Result B :=
  match r with
  | Ok a => k a
  | Raise e => Raise e
  end.

Notation "x <- r ;; k" := (bind r (fun x => k))
  (at level 100, r at next level, right associativity).

(** ** Compound and reaction records

    Both kinds of record are Python dictionaries; [mine_data] stores them
    side by side, so one record type carries the keys of both.  A field is
    [None] when the key is absent. *)

(** One entry of a [Reactants] or [Products] list: [[coefficient, id]], or an
    entry too short for [x[1]]. *)
Inductive Participant : Type :=
  | Part (coef : Z) (cid : string)
  | ShortEntry.

Record MineRecord : Type := mkRecord {
  _id : option string;
  Formula : option string;
  Reactions : option (list string);
  Reactant_in : option (list string);
  Product_of : option (list string);
  DB_links : option (gmap string (list string));
  Reactants : option (list Participant);
  Products : option (list Participant);
  RPair : option (list (string * (string * string)))
}.

(** ** Strings *)

Definition is_digit (a : ascii) : bool :=
  (48 <=? nat_of_ascii a)%nat && (nat_of_ascii a <=? 57)%nat.

Definition digit_value (a : ascii) : Z := Z.of_nat (nat_of_ascii a) - 48.

(** The longest prefix matched by [[0-9]*]. *)
Fixpoint take_digits (s : string) : string :=
  match s with
  | String a r => if is_digit a then String a (take_digits r) else ""
  | EmptyString => ""
  end.

(** [re.search('C{1}[0-9]*', s)]: the leftmost match, as [group(0)]. *)
Fixpoint re_search_C (s : string) : option string :=
  match s with
  | EmptyString => None
  | String a r =>
      if Ascii.eqb a "C" then Some (String "C" (take_digits r))
      else re_search_C r
  end.

(** [s.split(sep)] for a one-character separator. *)
Fixpoint split (sep : ascii) (s : string) : list string :=
  match s with
  | EmptyString => [""]
  | String a r =>
      if Ascii.eqb a sep then "" :: split sep r
      else
        match split sep r with
        | piece :: pieces => String a piece :: pieces
        | [] => [String a ""]
        end
  end.

Fixpoint decimal_go (acc : Z) (s : string) : option Z :=
  match s with
  | EmptyString => Some acc
  | String a r =>
      if is_digit a then decimal_go (10 * acc + digit_value a) r else None
  end.

(** [int(s)] on the strings that reach it here (runs of ASCII digits): the
    empty string and any other character give [ValueError], here [None]. *)
Definition int (s : string) : option Z :=
  match s with
  | EmptyString => None
  | _ => decimal_go 0 s
  end.

(** [needle in haystack] on strings. *)
Fixpoint str_in (needle hay : string) : bool :=
  String.prefix needle hay ||
  match hay with
  | EmptyString => false
  | String _ r => str_in needle r
  end.

(** ** LimitCarbon *)

Definition LimitCarbon (comp : MineRecord) (C_limit : Z) : Result bool :=
  match Formula comp with
  | None => Ok false
  | Some formula =>
      C_count <-
        match re_search_C formula with
        | Some group0 =>
            match split "C" group0 !! 1%nat with
            | Some digits =>
                match int digits with
                | Some n => Ok n
                | None => Ok 1
                end
            | None => Raise IndexError
            end
        | None => Ok 0
        end;;
      Ok (bool_decide (C_count > C_limit))
  end.

(** The carbon count in the words of the specification: the integer that
    follows the first [C] of the formula; 0 when there is no [C]; 1 when no
    integer can be read there. *)
Fixpoint digits_after_first_C (s : string) : option string :=
  match s with
  | EmptyString => None
  | String a r =>
      if Ascii.eqb a "C" then Some (take_digits r) else digits_after_first_C r
  end.

Definition carbon_count (formula : string) : Z :=
  match digits_after_first_C formula with
  | None => 0
  | Some d =>
      match d with
      | EmptyString => 1
      | _ => default 1 (decimal_go 0 d)
      end
  end.

(** ** Record access *)

Definition get_id (r : MineRecord) : Result string :=
  match _id r with
  | Some i => Ok i
  | None => Raise KeyError
  end.

Definition set_Reactant_in (v : list string) (r : MineRecord) : MineRecord :=
  mkRecord (_id r) (Formula r) (Reactions r) (Some v) (Product_of r)
           (DB_links r) (Reactants r) (Products r) (RPair r).

Definition set_Product_of (v : list string) (r : MineRecord) : MineRecord :=
  mkRecord (_id r) (Formula r) (Reactions r) (Reactant_in r) (Some v)
           (DB_links r) (Reactants r) (Products r) (RPair r).

(** [[x[1] for x in entries]]: [IndexError] at an entry that is too short. *)
Fixpoint participant_ids (entries : list Participant) : Result (list string) :=
  match entries with
  | [] => Ok []
  | Part _ cid :: rest => ids <- participant_ids rest;; Ok (cid :: ids)
  | ShortEntry :: _ => Raise IndexError
  end.

(** ** AllowReactionListing *)

(** The loop over [kegg_rxn['RPair'].items()]; [true] when one of the two
    tests returns [False] from the function. *)
Fixpoint rpair_excludes (comp_id : string)
    (items : list (string * (string * string))) : bool :=
  match items with
  | [] => false
  | rp :: rest =>
      if str_in comp_id rp.2.1 && String.eqb rp.2.2 "cofac" then true
      else if str_in comp_id rp.2.1 && String.eqb rp.1 "RP00003" then true
      else rpair_excludes comp_id rest
  end.

Definition AllowReactionListing (kegg_comp kegg_rxn : MineRecord) : Result bool :=
  over <- LimitCarbon kegg_comp 0;;
  if negb over then Ok false
  else
    comp_id <- get_id kegg_comp;;
    if String.eqb comp_id "C00011" then Ok false
    else if bool_decide (comp_id ∈ ["C00010"; "C00229"]) then Ok false
    else
      match RPair kegg_rxn with
      | Some items => Ok (negb (rpair_excludes comp_id items))
      | None => Ok true
      end.

(** ** SortKeggReactions *)

(** [d[k]['Reactant_in'].append(rid)], or a fresh one-element list on
    [KeyError]. *)
Definition append_Reactant_in (rid : string) (r : MineRecord) : MineRecord :=
  match Reactant_in r with
  | Some l => set_Reactant_in (l ++ [rid]) r
  | None => set_Reactant_in [rid] r
  end.

Definition append_Product_of (rid : string) (r : MineRecord) : MineRecord :=
  match Product_of r with
  | Some l => set_Product_of (l ++ [rid]) r
  | None => set_Product_of [rid] r
  end.

(** One side of a reaction: list it in the compound when the compound id is
    among the participants. *)
Definition list_side (side : option (list Participant))
    (append : string -> MineRecord -> MineRecord)
    (kegg_comp_id : string) (rxn : MineRecord)
    (kegg_comp_dict : gmap string MineRecord) : Result (gmap string MineRecord) :=
  match side with
  | None => Ok kegg_comp_dict
  | Some entries =>
      ids <- participant_ids entries;;
      if bool_decide (kegg_comp_id ∈ ids) then
        rid <- get_id rxn;;
        match kegg_comp_dict !! kegg_comp_id with
        | Some r => Ok (<[kegg_comp_id := append rid r]> kegg_comp_dict)
        | None => Raise KeyError
        end
      else Ok kegg_comp_dict
  end.

(** The body of the loop over [kegg_comp["Reactions"]]. *)
Fixpoint sort_reactions_of (kegg_rxn_dict : gmap string MineRecord)
    (kegg_comp_id : string) (rxn_ids : list string)
    (kegg_comp_dict : gmap string MineRecord) : Result (gmap string MineRecord) :=
  match rxn_ids with
  | [] => Ok kegg_comp_dict
  | rxn_id :: rest =>
      match kegg_rxn_dict !! rxn_id with
      | None => sort_reactions_of kegg_rxn_dict kegg_comp_id rest kegg_comp_dict
      | Some rxn =>
          match kegg_comp_dict !! kegg_comp_id with
          | None => Raise KeyError
          | Some kegg_comp =>
              allowed <- AllowReactionListing kegg_comp rxn;;
              if negb allowed then
                sort_reactions_of kegg_rxn_dict kegg_comp_id rest kegg_comp_dict
              else
                d1 <- list_side (Reactants rxn) append_Reactant_in
                                kegg_comp_id rxn kegg_comp_dict;;
                d2 <- list_side (Products rxn) append_Product_of
                                kegg_comp_id rxn d1;;
                sort_reactions_of kegg_rxn_dict kegg_comp_id rest d2
          end
      end
  end.

(** The loop over [kegg_comp_dict.keys()]. *)
Fixpoint sort_compounds (kegg_rxn_dict : gmap string MineRecord)
    (kegg_comp_ids : list string)
    (kegg_comp_dict : gmap string MineRecord) : Result (gmap string MineRecord) :=
  match kegg_comp_ids with
  | [] => Ok kegg_comp_dict
  | kegg_comp_id :: rest =>
      match kegg_comp_dict !! kegg_comp_id with
      | None => Raise KeyError
      | Some kegg_comp =>
          d <- match Reactions kegg_comp with
               | Some rxn_ids =>
                   sort_reactions_of kegg_rxn_dict kegg_comp_id rxn_ids kegg_comp_dict
               | None => Ok kegg_comp_dict
               end;;
          sort_compounds kegg_rxn_dict rest d
      end
  end.

(** The dictionary is updated in place; the result is its final content. *)
Definition SortKeggReactions (kegg_comp_dict kegg_rxn_dict : gmap string MineRecord)
    : Result (gmap string MineRecord) :=
  sort_compounds kegg_rxn_dict (elements (dom kegg_comp_dict)) kegg_comp_dict.

(** The fixture of [test_SortKeggReactions]. *)
Definition kegg_comp (i : string) (rs : option (list string)) (f : string) : MineRecord :=
  mkRecord (Some i) (Some f) rs None None None None None None.

Definition kegg_rxn (i : string) (rs ps : list Participant)
    (rp : list (string * (string * string))) : MineRecord :=
  mkRecord (Some i) None None None None None (Some rs) (Some ps) (Some rp).

Definition test_kegg_comp_dict : gmap string MineRecord :=
  list_to_map [
    ("C1", kegg_comp "C1" (Some ["R1"; "R2"]) "C10H18O2");
    ("C2", kegg_comp "C2" (Some ["R3"; "R4"]) "XeF4");
    ("C3", kegg_comp "C3" (Some ["R5"; "R6"]) "C10H12O3");
    ("C4", kegg_comp "C4" (Some ["R5"; "RX"]) "C2H5O");
    ("C5", kegg_comp "C5" (Some ["R7"]) "CH3O");
    ("C6", kegg_comp "C6" None "C12")
  ].

Definition test_kegg_rxn_dict : gmap string MineRecord :=
  list_to_map [
    ("R1", kegg_rxn "R1" [Part 1 "C1"] [Part 1 "X1"] [("RP1", ("C1_X1", "main"))]);
    ("R2", kegg_rxn "R2" [Part 1 "C1"; Part 1 "C100"] [Part 1 "C101"; Part 2 "C10"]
                    [("RP2", ("C100_C101", "main")); ("RP3", ("C1_C10", "cofac"))]);
    ("R3", kegg_rxn "R3" [Part 1 "C2"] [Part 1 "X2"] [("RP4", ("C2_X2", "main"))]);
    ("R4", kegg_rxn "R3" [Part 1 "Z2"] [Part 1 "C2"] [("RP5", ("Z2_C2", "main"))]);
    ("R5", kegg_rxn "R5" [Part 1 "C3"; Part 1 "Z9"] [Part 1 "C4"]
                    [("RP6", ("C3_C4", "main")); ("RP7", ("Z9_C4", "trans"))]);
    ("R6", kegg_rxn "R6" [Part 1 "C9"] [Part 1 "C8"; Part 1 "C3"]
                    [("RP8", ("C9_C3", "main"))]);
    ("R7", kegg_rxn "R7" [Part 1 "X4"] [Part 1 "Z4"] [("RP9", ("X4_Z4", "main"))])
  ].

(** ** ExtractReactionCompIds, ExtractCompReactionIds *)

(** A side whose key is absent, or whose list has an entry too short for
    [x[1]], contributes nothing (a warning is printed). *)
Definition side_ids (side : option (list Participant)) : list string :=
  match side with
  | None => []
  | Some entries =>
      match participant_ids entries with
      | Ok ids => ids
      | Raise _ => []
      end
  end.

Definition ExtractReactionCompIds (rxn : MineRecord) : list string :=
  side_ids (Reactants rxn) ++ side_ids (Products rxn).

Definition ExtractCompReactionIds (comp : MineRecord) : list string :=
  default [] (Reactant_in comp) ++ default [] (Product_of comp).

(** ** GetRawNetwork *)

Record Expansion : Type := mkExpansion {
  comp_dict : gmap string MineRecord;
  rxn_dict : gmap string MineRecord;
  comps : Z;
  extended_comp_ids : gset string;
  rxn_exceeding_C_limit : gset string;
  comp_exceeding_C_limit : gset string;
  comp_cache : gmap string MineRecord
}.

(** What a loop body hands back: go on with the next iteration, or leave the
    function at its [return (comp_dict, rxn_dict)] in the state given. *)
Inductive Flow : Type :=
  | Next (st : Expansion)
  | Return (st : Expansion).

Section NetworkExpander.

(** The repository behind [GetComp] and [GetRxn]: the record fetched for an
    id, [None] when it cannot be retrieved. *)
Variable GetComp : string -> option MineRecord.
Variable GetRxn : string -> option MineRecord.

(** The order in which the worker pool delivers the results of a batch. *)
Variable completion : list string -> list string.

(** The order in which a set of ids is iterated. *)
Variable set_iter : gset string -> list string.

Definition ThreadedGetComps (comp_id_list : list string) : list (option MineRecord) :=
  GetComp <$> completion comp_id_list.

Definition ThreadedGetRxns (rxn_id_list : list string) : list (option MineRecord) :=
  GetRxn <$> completion rxn_id_list.

(** "First add the starting compounds". *)
Fixpoint add_start_comps (C_limit : Z) (fetched : list (option MineRecord))
    (comp_dict : gmap string MineRecord) (comps : Z)
    : Result (gmap string MineRecord * Z) :=
  match fetched with
  | [] => Ok (comp_dict, comps)
  | None :: rest => add_start_comps C_limit rest comp_dict comps
  | Some comp :: rest =>
      match _id comp with
      | None => add_start_comps C_limit rest comp_dict comps
      | Some comp_id =>
          over <- LimitCarbon comp C_limit;;
          if negb over then
            add_start_comps C_limit rest (<[comp_id := comp]> comp_dict) (comps + 1)
          else add_start_comps C_limit rest comp_dict comps
      end
  end.

(** The reactions of one unexplored compound that are neither stored nor
    known to exceed the limit. *)
Fixpoint wanted_rxns (rxn_dict : gmap string MineRecord)
    (rxn_exceeding : gset string) (rxn_id_list : list string)
    (rxn_ids_to_download : gset string) : gset string :=
  match rxn_id_list with
  | [] => rxn_ids_to_download
  | rxn_id :: rest =>
      if bool_decide ((rxn_id ∉ dom rxn_dict) ∧ (rxn_id ∉ rxn_exceeding)) then
        wanted_rxns rxn_dict rxn_exceeding rest ({[rxn_id]} ∪ rxn_ids_to_download)
      else wanted_rxns rxn_dict rxn_exceeding rest rxn_ids_to_download
  end.

(** The loop over [unextended_comp_ids]. *)
Fixpoint collect_rxn_ids (st : Expansion) (unextended : list string)
    (rxn_ids_to_download : gset string) : Result (gset string) :=
  match unextended with
  | [] => Ok rxn_ids_to_download
  | comp_id :: rest =>
      match comp_dict st !! comp_id with
      | None => Raise KeyError
      | Some comp =>
          collect_rxn_ids st rest
            (wanted_rxns (rxn_dict st) (rxn_exceeding_C_limit st)
               (ExtractCompReactionIds comp) rxn_ids_to_download)
      end
  end.

(** The compounds of one new reaction that are neither stored, cached nor
    known to exceed the limit. *)
Fixpoint wanted_comps (st : Expansion) (rxn_comp_ids : list string)
    (comp_ids_to_download : gset string) : gset string :=
  match rxn_comp_ids with
  | [] => comp_ids_to_download
  | rxn_comp_id :: rest =>
      if bool_decide ((rxn_comp_id ∉ dom (comp_dict st))
                      ∧ (rxn_comp_id ∉ dom (comp_cache st))
                      ∧ (rxn_comp_id ∉ comp_exceeding_C_limit st)) then
        wanted_comps st rest ({[rxn_comp_id]} ∪ comp_ids_to_download)
      else wanted_comps st rest comp_ids_to_download
  end.

(** The first loop over [new_rxns]. *)
Fixpoint collect_comp_ids (st : Expansion) (new_rxns : list (option MineRecord))
    (comp_ids_to_download : gset string) : gset string :=
  match new_rxns with
  | [] => comp_ids_to_download
  | None :: rest => collect_comp_ids st rest comp_ids_to_download
  | Some rxn :: rest =>
      collect_comp_ids st rest
        (wanted_comps st (ExtractReactionCompIds rxn) comp_ids_to_download)
  end.

(** "Expand the comp_cache with the new compounds". *)
Fixpoint expand_cache (new_comps : list (option MineRecord))
    (comp_cache : gmap string MineRecord) : gmap string MineRecord :=
  match new_comps with
  | [] => comp_cache
  | None :: rest => expand_cache rest comp_cache
  | Some comp :: rest =>
      match _id comp with
      | None => expand_cache rest comp_cache
      | Some comp_id => expand_cache rest (<[comp_id := comp]> comp_cache)
      end
  end.

(** The loop over the compounds of one new reaction.  It ends early, with
    the compound and the reaction marked, at the first cached compound that
    exceeds the limit. *)
Fixpoint scan_rxn_comps (C_limit : Z) (rxn_id : string)
    (rxn_comp_ids : list string) (st : Expansion)
    (new_rxn_comp_ids : gset string) : Result (Expansion * gset string) :=
  match rxn_comp_ids with
  | [] => Ok (st, new_rxn_comp_ids)
  | rxn_comp_id :: rest =>
      if bool_decide (rxn_comp_id ∉ dom (comp_dict st)) then
        match comp_cache st !! rxn_comp_id with
        | Some rxn_comp =>
            over <- LimitCarbon rxn_comp C_limit;;
            if over then
              Ok (mkExpansion (comp_dict st) (rxn_dict st) (comps st)
                    (extended_comp_ids st)
                    ({[rxn_id]} ∪ rxn_exceeding_C_limit st)
                    ({[rxn_comp_id]} ∪ comp_exceeding_C_limit st)
                    (comp_cache st),
                  new_rxn_comp_ids)
            else
              scan_rxn_comps C_limit rxn_id rest st
                ({[rxn_comp_id]} ∪ new_rxn_comp_ids)
        | None => scan_rxn_comps C_limit rxn_id rest st new_rxn_comp_ids
        end
      else scan_rxn_comps C_limit rxn_id rest st new_rxn_comp_ids
  end.

(** The loop over [new_rxn_comp_ids]: move the compounds from the cache to
    the dictionary, and return from the function at the compound limit. *)
Fixpoint harvest (comp_limit : Z) (new_rxn_comp_ids : list string)
    (st : Expansion)
    : Result Flow :=
  match new_rxn_comp_ids with
  | [] => Ok (Next st)
  | new_rxn_comp_id :: rest =>
      match comp_cache st !! new_rxn_comp_id with
      | None => Raise KeyError
      | Some comp =>
          let st' :=
            mkExpansion (<[new_rxn_comp_id := comp]> (comp_dict st)) (rxn_dict st)
              (comps st + 1) (extended_comp_ids st) (rxn_exceeding_C_limit st)
              (comp_exceeding_C_limit st) (comp_cache st) in
          if bool_decide (comps st' >= comp_limit) then Ok (Return st')
          else harvest comp_limit rest st'
      end
  end.

(** The second loop over [new_rxns]. *)
Fixpoint explore_rxns (comp_limit C_limit : Z)
    (new_rxns : list (option MineRecord)) (st : Expansion)
    : Result Flow :=
  match new_rxns with
  | [] => Ok (Next st)
  | None :: rest => explore_rxns comp_limit C_limit rest st
  | Some rxn :: rest =>
      match _id rxn with
      | None => explore_rxns comp_limit C_limit rest st
      | Some rxn_id =>
          scanned <- scan_rxn_comps C_limit rxn_id (ExtractReactionCompIds rxn) st ∅;;
          let '(st1, new_rxn_comp_ids) := scanned in
          if bool_decide (rxn_id ∈ rxn_exceeding_C_limit st1) then
            explore_rxns comp_limit C_limit rest st1
          else
            let st2 :=
              mkExpansion (comp_dict st1) (<[rxn_id := rxn]> (rxn_dict st1))
                (comps st1) (extended_comp_ids st1) (rxn_exceeding_C_limit st1)
                (comp_exceeding_C_limit st1) (comp_cache st1) in
            harvested <- harvest comp_limit (set_iter new_rxn_comp_ids) st2;;
            match harvested with
            | Next st3 => explore_rxns comp_limit C_limit rest st3
            | Return st3 => Ok (Return st3)
            end
      end
  end.

(** One turn of the [while] loop. *)
Definition expansion_step (comp_limit C_limit : Z) (st : Expansion)
    : Result Flow :=
  let unextended_comp_ids := dom (comp_dict st) ∖ extended_comp_ids st in
  rxn_ids_to_download <- collect_rxn_ids st (set_iter unextended_comp_ids) ∅;;
  let new_rxns := ThreadedGetRxns (set_iter rxn_ids_to_download) in
  let comp_ids_to_download := collect_comp_ids st new_rxns ∅ in
  let new_comps := ThreadedGetComps (set_iter comp_ids_to_download) in
  let st1 :=
    mkExpansion (comp_dict st) (rxn_dict st) (comps st) (extended_comp_ids st)
      (rxn_exceeding_C_limit st) (comp_exceeding_C_limit st)
      (expand_cache new_comps (comp_cache st)) in
  explored <- explore_rxns comp_limit C_limit new_rxns st1;;
  match explored with
  | Next st2 =>
      Ok (Next (mkExpansion (comp_dict st2) (rxn_dict st2) (comps st2)
                  (extended_comp_ids st2 ∪ unextended_comp_ids)
                  (rxn_exceeding_C_limit st2) (comp_exceeding_C_limit st2)
                  (comp_cache st2)))
  | Return st2 => Ok (Return st2)
  end.

(** [while steps < step_limit], with [steps] counting up from 0: the
    argument is the number of turns that remain.  The result is the state
    in which the function returns. *)
Fixpoint expansion_loop (turns : nat) (comp_limit C_limit : Z) (st : Expansion)
    : Result Expansion :=
  match turns with
  | O => Ok st
  | S turns' =>
      stepped <- expansion_step comp_limit C_limit st;;
      match stepped with
      | Next st' => expansion_loop turns' comp_limit C_limit st'
      | Return st' => Ok st'
      end
  end.

Definition start_expansion (C_limit : Z) (comp_id_list : list string)
    : Result Expansion :=
  started <- add_start_comps C_limit (ThreadedGetComps comp_id_list) ∅ 0;;
  Ok (mkExpansion started.1 ∅ started.2 ∅ ∅ ∅ ∅).

(** The run of [GetRawNetwork] up to its [return]: the final state, with
    the two sets of ids found to exceed the carbon limit. *)
Definition GetRawNetwork_run (comp_id_list : list string)
    (step_limit comp_limit C_limit : Z) : Result Expansion :=
  st <- start_expansion C_limit comp_id_list;;
  expansion_loop (Z.to_nat step_limit) comp_limit C_limit st.

Definition GetRawNetwork (comp_id_list : list string)
    (step_limit comp_limit C_limit : Z)
    : Result (gmap string MineRecord * gmap string MineRecord) :=
  st <- GetRawNetwork_run comp_id_list step_limit comp_limit C_limit;;
  Ok (comp_dict st, rxn_dict st).

End NetworkExpander.

(** ** The graph

    A networkx [DiGraph]: the node table with the attribute dictionary of
    each node, the set of directed edges, and the graph dictionary with its
    two keys [cmid2node] and [mine_data] ([None] when the key is absent). *)

Record NodeAttr : Type := mkAttr {
  n_type : option string;
  n_mid : option string;
  n_start : option bool;
  n_c : option (gset nat)
}.

Record DiGraph : Type := mkGraph {
  node : gmap nat NodeAttr;
  edges : gset (nat * nat);
  cmid2node : option (gmap string nat);
  mine_data : option (gmap string MineRecord)
}.

(** [dict.update]: the keys of [new] win. *)
Definition update_attr (old new : NodeAttr) : NodeAttr :=
  mkAttr (if n_type new is Some _ then n_type new else n_type old)
         (if n_mid new is Some _ then n_mid new else n_mid old)
         (if n_start new is Some _ then n_start new else n_start old)
         (if n_c new is Some _ then n_c new else n_c old).

(** [graph.add_node(n, **attr)]: a new node, or an update of the attributes
    of the node that is there. *)
Definition add_node (n : nat) (attr : NodeAttr) (g : DiGraph) : DiGraph :=
  mkGraph
    (<[n := match node g !! n with
            | Some old => update_attr old attr
            | None => attr
            end]> (node g))
    (edges g) (cmid2node g) (mine_data g).

(** [graph.add_edge(u, v)]: both ends become nodes when they are not. *)
Definition add_edge (u v : nat) (g : DiGraph) : DiGraph :=
  let g1 := add_node u (mkAttr None None None None) g in
  let g2 := add_node v (mkAttr None None None None) g1 in
  mkGraph (node g2) ({[(u, v)]} ∪ edges g2) (cmid2node g2) (mine_data g2).

Definition successors (n : nat) (g : DiGraph) : Result (list nat) :=
  match node g !! n with
  | Some _ => Ok (snd <$> elements (filter (fun e => e.1 = n) (edges g)))
  | None => Raise NetworkXError
  end.

Definition predecessors (n : nat) (g : DiGraph) : Result (list nat) :=
  match node g !! n with
  | Some _ => Ok (fst <$> elements (filter (fun e => e.2 = n) (edges g)))
  | None => Raise NetworkXError
  end.

Definition remove_node (n : nat) (g : DiGraph) : Result DiGraph :=
  match node g !! n with
  | Some _ =>
      Ok (mkGraph (delete n (node g))
            (filter (fun e => e.1 ≠ n ∧ e.2 ≠ n) (edges g))
            (cmid2node g) (mine_data g))
  | None => Raise NetworkXError
  end.

(** [graph.node[n][key]]. *)
Definition node_attr {A : Type} (key : NodeAttr -> option A) (n : nat) (g : DiGraph)
    : Result A :=
  match node g !! n with
  | Some attr =>
      match key attr with
      | Some v => Ok v
      | None => Raise KeyError
      end
  | None => Raise KeyError
  end.

(** ** AddCompoundNode *)

(** [mid[1:]] *)
Definition str_tail (s : string) : string :=
  match s with
  | EmptyString => ""
  | String _ r => r
  end.

(** [mid[0]] *)
Definition str_head (s : string) : Result ascii :=
  match s with
  | EmptyString => Raise IndexError
  | String a _ => Ok a
  end.

(** The [if]/[elif] chain that decides the [start] attribute. *)
Definition is_start (compound : MineRecord) (mid : string)
    (start_comp_ids : gset string) : Result bool :=
  if bool_decide (mid ∈ start_comp_ids) then Ok true
  else if bool_decide (String "C" (str_tail mid) ∈ start_comp_ids) then Ok true
  else
    first <- str_head mid;;
    if Ascii.eqb first "X" then
      over <- LimitCarbon compound 0;;
      Ok (negb over)
    else Ok false.

Definition AddCompoundNode (graph : DiGraph) (compound : MineRecord)
    (start_comp_ids : gset string) : Result DiGraph :=
  let N := S (size (node graph)) in
  match _id compound with
  | None => Ok graph
  | Some mid =>
      start <- is_start compound mid start_comp_ids;;
      let g := add_node N (mkAttr (Some "c") (Some mid) (Some start) None) graph in
      Ok (mkGraph (node g) (edges g)
            (match cmid2node g with
             | Some index => Some (<[mid := N]> index)
             | None => Some {[mid := N]}
             end)
            (mine_data g))
  end.

(** ** CheckConnection *)

(** [r_mid in minetwork.graph['mine_data'][c_mid][key]], [False] when one of
    the three lookups raises [KeyError]. *)
Definition listed_in (key : MineRecord -> option (list string))
    (minetwork : DiGraph) (c_mid r_mid : string) : bool :=
  match mine_data minetwork with
  | Some data =>
      match data !! c_mid with
      | Some rec =>
          match key rec with
          | Some l => bool_decide (r_mid ∈ l)
          | None => false
          end
      | None => false
      end
  | None => false
  end.

Definition CheckConnection (minetwork : DiGraph) (c_node r_node : nat) : Result bool :=
  c_mid <- node_attr n_mid c_node minetwork;;
  r_mid <- node_attr n_mid r_node minetwork;;
  r_type <- node_attr n_type r_node minetwork;;
  let con1 :=
    if bool_decide (r_type ∈ ["rf"; "pr"])
    then listed_in Reactant_in minetwork c_mid r_mid else false in
  let con2 :=
    if bool_decide (r_type ∈ ["pf"; "rr"])
    then listed_in Product_of minetwork c_mid r_mid else false in
  Ok (con1 || con2).

(** ** AddQuadReactionNode *)

(** [graph.graph['cmid2node'][c_mid]], [None] on [KeyError]. *)
Definition index_lookup (index : option (gmap string nat)) (c_mid : string)
    : option nat :=
  match index with
  | Some idx => idx !! c_mid
  | None => None
  end.

(** The loops over [reactants_f] and [products_f]: the nodes of the compound
    ids, [None] at the first id that the index does not resolve. *)
Fixpoint resolve_nodes (index : option (gmap string nat)) (c_mids : list string)
    (found : gset nat) : option (gset nat) :=
  match c_mids with
  | [] => Some found
  | c_mid :: rest =>
      match index_lookup index c_mid with
      | Some n => resolve_nodes index rest ({[n]} ∪ found)
      | None => None
      end
  end.

(** The loop that connects a role node [N] to its compound nodes; [inward]
    says whether the edges run from the compound to the role node. *)
Fixpoint connect (inward : bool) (N : nat) (c_nodes : list nat) (graph : DiGraph)
    : Result DiGraph :=
  match c_nodes with
  | [] => Ok graph
  | c_node :: rest =>
      ok <- CheckConnection graph c_node N;;
      if ok then
        connect inward N rest
          (if inward then add_edge c_node N graph else add_edge N c_node graph)
      else connect inward N rest graph
  end.

Definition role_node (N : nat) (role rxn_id : string) (members : gset nat)
    (inward : bool) (graph : DiGraph) : Result DiGraph :=
  connect inward N (elements members)
    (add_node N (mkAttr (Some role) (Some rxn_id) None (Some members)) graph).

Definition AddQuadReactionNode (graph : DiGraph) (rxn : MineRecord) : Result DiGraph :=
  match _id rxn, Reactants rxn, Products rxn with
  | Some rxn_id, Some rs, Some ps =>
      match participant_ids rs, participant_ids ps with
      | Ok r_ids, Ok p_ids =>
          let reactants_f : gset string := list_to_set r_ids in
          let products_f : gset string := list_to_set p_ids in
          match resolve_nodes (cmid2node graph) (elements reactants_f) ∅ with
          | None => Ok graph
          | Some rf =>
              match resolve_nodes (cmid2node graph) (elements products_f) ∅ with
              | None => Ok graph
              | Some pf =>
                  let rr := pf in
                  let pr := rf in
                  let N := S (size (node graph)) in
                  g1 <- role_node N "rf" rxn_id rf true graph;;
                  g2 <- role_node (N + 1) "pf" rxn_id pf false g1;;
                  let g3 := add_edge N (N + 1) g2 in
                  g4 <- role_node (N + 2) "rr" rxn_id rr true g3;;
                  g5 <- role_node (N + 3) "pr" rxn_id pr false g4;;
                  Ok (add_edge (N + 2) (N + 3) g5)
              end
          end
      | _, _ => Ok graph
      end
  | _, _, _ => Ok graph
  end.

(** ** ExpandStartCompIds *)

(** [comp['DB_links']['KEGG']], [None] on [KeyError]. *)
Definition kegg_links (comp : MineRecord) : option (list string) :=
  DB_links comp ≫= (fun links => links !! "KEGG").

(** The loop over [start_comp_ids] that gathers the KEGG ids of the start
    compounds. *)
Fixpoint gather_kegg_ids (comp_dict : gmap string MineRecord)
    (start_ids : list string) (start_kegg_ids : gset string) : gset string :=
  match start_ids with
  | [] => start_kegg_ids
  | start_comp_id :: rest =>
      match comp_dict !! start_comp_id with
      | None => gather_kegg_ids comp_dict rest start_kegg_ids
      | Some start_comp =>
          match kegg_links start_comp with
          | Some l => gather_kegg_ids comp_dict rest (start_kegg_ids ∪ list_to_set l)
          | None => gather_kegg_ids comp_dict rest start_kegg_ids
          end
      end
  end.

(** The loop over [comp_dict.keys()] that adds every compound sharing a KEGG
    id with the start compounds. *)
Fixpoint add_shared (start_kegg_ids : gset string)
    (items : list (string * MineRecord)) (start_comp_ids : gset string)
    : gset string :=
  match items with
  | [] => start_comp_ids
  | (comp_id, comp) :: rest =>
      match kegg_links comp with
      | Some l =>
          if bool_decide (size (list_to_set l ∩ start_kegg_ids : gset string) ≠ 0%nat)
          then add_shared start_kegg_ids rest ({[comp_id]} ∪ start_comp_ids)
          else add_shared start_kegg_ids rest start_comp_ids
      | None => add_shared start_kegg_ids rest start_comp_ids
      end
  end.

Definition ExpandStartCompIds (comp_dict : gmap string MineRecord)
    (start_comp_ids : gset string) (extra_kegg_ids : list string) : gset string :=
  let start_kegg_ids :=
    gather_kegg_ids comp_dict (elements start_comp_ids) (list_to_set extra_kegg_ids) in
  add_shared start_kegg_ids (map_to_list comp_dict) start_comp_ids.

(** ** ConstructNetwork *)

(** [sorted(d.keys())] *)
Definition sorted_keys (d : gmap string MineRecord) : list string :=
  merge_sort String.le (elements (dom d)).

Fixpoint add_compounds (comp_dict : gmap string MineRecord)
    (start_comp_ids : gset string) (comp_ids : list string) (minetwork : DiGraph)
    : Result DiGraph :=
  match comp_ids with
  | [] => Ok minetwork
  | comp_id :: rest =>
      match comp_dict !! comp_id with
      | None => Raise KeyError
      | Some comp =>
          g <- AddCompoundNode minetwork comp start_comp_ids;;
          add_compounds comp_dict start_comp_ids rest g
      end
  end.

Fixpoint add_reactions (rxn_dict : gmap string MineRecord)
    (rxn_ids : list string) (minetwork : DiGraph) : Result DiGraph :=
  match rxn_ids with
  | [] => Ok minetwork
  | rxn_id :: rest =>
      match rxn_dict !! rxn_id with
      | None => Raise KeyError
      | Some rxn =>
          g <- AddQuadReactionNode minetwork rxn;;
          add_reactions rxn_dict rest g
      end
  end.

Definition ConstructNetwork (comp_dict rxn_dict : gmap string MineRecord)
    (start_comp_ids extra_kegg_ids : list string) : Result DiGraph :=
  let start_comp_ids :=
    ExpandStartCompIds comp_dict (list_to_set start_comp_ids) extra_kegg_ids in
  (* {**comp_dict, **rxn_dict}: the reactions win on a shared key *)
  let minetwork := mkGraph ∅ ∅ None (Some (rxn_dict ∪ comp_dict)) in
  g <- add_compounds comp_dict start_comp_ids (sorted_keys comp_dict) minetwork;;
  add_reactions rxn_dict (sorted_keys rxn_dict) g.

(** ** KeggMineIntegration *)

Definition IsConnectedMineComp (comp_id : string) (network : DiGraph) : Result bool :=
  match mine_data network with
  | None => Raise KeyError
  | Some data =>
      match data !! comp_id with
      | None => Raise KeyError
      | Some rec =>
          Ok (bool_decide (is_Some (Reactant_in rec) ∨ is_Some (Product_of rec)))
      end
  end.

Fixpoint all_chars (p : ascii -> bool) (s : string) : bool :=
  match s with
  | EmptyString => true
  | String a r => p a && all_chars p r
  end.

(** [$] also matches just before a newline that ends the string. *)
Fixpoint drop_final_newline (s : string) : string :=
  match s with
  | EmptyString => ""
  | String a r =>
      if Ascii.eqb a "010" && String.eqb r "" then ""
      else String a (drop_final_newline r)
  end.

(** The class [[0-9,a-f]]. *)
Definition is_hex_or_comma (a : ascii) : bool :=
  is_digit a || Ascii.eqb a ","
  || ((97 <=? nat_of_ascii a)%nat && (nat_of_ascii a <=? 102)%nat).

(** [re.match('^[CX]{1}[0-9,a-f]{40}$', s)] *)
Definition re_match_mine_id (s : string) : bool :=
  match s with
  | EmptyString => false
  | String a r =>
      (Ascii.eqb a "C" || Ascii.eqb a "X")
      && (String.length (drop_final_newline r) =? 40)%nat
      && all_chars is_hex_or_comma (drop_final_newline r)
  end.

(** [re.match('^C{1}[0-9]{5}$', s)] *)
Definition re_match_kegg_id (s : string) : bool :=
  match s with
  | EmptyString => false
  | String a r =>
      Ascii.eqb a "C"
      && (String.length (drop_final_newline r) =? 5)%nat
      && all_chars is_digit (drop_final_newline r)
  end.

(** [kegg_to_mine[kegg_id].add(mine_id)], or a fresh set on [KeyError]. *)
Fixpoint register_kegg_ids (mine_id : string) (kegg_ids : list string)
    (kegg_to_mine : gmap string (gset string)) : gmap string (gset string) :=
  match kegg_ids with
  | [] => kegg_to_mine
  | kegg_id :: rest =>
      register_kegg_ids mine_id rest
        (<[kegg_id := match kegg_to_mine !! kegg_id with
                      | Some s => {[mine_id]} ∪ s
                      | None => {[mine_id]}
                      end]> kegg_to_mine)
  end.

(** [network.graph['mine_data'][mine_id]['DB_links']['KEGG']], [None] on
    [KeyError]. *)
Definition mine_kegg_links (network : DiGraph) (mine_id : string)
    : option (list string) :=
  match mine_data network with
  | Some data =>
      match data !! mine_id with
      | Some rec => kegg_links rec
      | None => None
      end
  | None => None
  end.

(** The first loop over the nodes: the KEGG-to-MINE dictionary and the two
    node counters. *)
Fixpoint index_mine_nodes (network : DiGraph) (nodes : list nat)
    (kegg_to_mine : gmap string (gset string)) (c_node_count mc_node_count : Z)
    : Result (gmap string (gset string) * Z * Z) :=
  match nodes with
  | [] => Ok (kegg_to_mine, c_node_count, mc_node_count)
  | nd :: rest =>
      ty <- node_attr n_type nd network;;
      if String.eqb ty "c" then
        mine_id <- node_attr n_mid nd network;;
        if re_match_mine_id mine_id then
          match mine_kegg_links network mine_id with
          | None =>
              index_mine_nodes network rest kegg_to_mine
                (c_node_count + 1) (mc_node_count + 1)
          | Some l =>
              index_mine_nodes network rest
                (register_kegg_ids mine_id (elements (list_to_set l : gset string))
                   kegg_to_mine)
                (c_node_count + 1) (mc_node_count + 1)
          end
        else index_mine_nodes network rest kegg_to_mine (c_node_count + 1) mc_node_count
      else index_mine_nodes network rest kegg_to_mine c_node_count mc_node_count
  end.

(** The name [compound] that the second loop reads: it is no local of
    [KeggMineIntegration], no module-level name and no builtin, so reading it
    raises [NameError]. *)
Definition read_compound : Result string := Raise NameError.

Definition add_edges_from (es : list (nat * nat)) (g : DiGraph) : DiGraph :=
  foldl (fun g e => add_edge e.1 e.2 g) g es.

(** The loop over [mine_ids]. *)
Fixpoint transfer_edges (mine_ids : list string) (con_r_nodes con_p_nodes : list nat)
    (network : DiGraph) : Result DiGraph :=
  match mine_ids with
  | [] => Ok network
  | mine_id :: rest =>
      match index_lookup (cmid2node network) mine_id with
      | None => Raise KeyError
      | Some mine_node =>
          connected <- IsConnectedMineComp mine_id network;;
          if connected then
            let network' :=
              add_edges_from
                (zip con_p_nodes (replicate (length con_p_nodes) mine_node))
                network in
            (* repeat(mine_node, len(con_r_nodes), con_r_nodes): [repeat]
               takes at most two arguments *)
            Raise TypeError
          else transfer_edges rest con_r_nodes con_p_nodes network
      end
  end.

(** How the body of the second loop ends for one node: it reaches the
    progress report at its end, or leaves through [continue]. *)
Inductive BodyEnd : Type :=
  | Through (network : DiGraph) (mine_ids : option (gset string))
  | Continue.

Definition transplant_node (kegg_to_mine : gmap string (gset string))
    (nd : nat) (network : DiGraph) (mine_ids : option (gset string))
    : Result BodyEnd :=
  ty <- node_attr n_type nd network;;
  if String.eqb ty "c" then
    kegg_id <- node_attr n_mid nd network;;
    compound <- read_compound;;
    let bound :=
      if re_match_kegg_id compound then
        match kegg_to_mine !! kegg_id with
        | Some ids => Some (Some ids)
        | None => None
        end
      else Some mine_ids in
    match bound with
    | None => Ok Continue
    | Some mine_ids' =>
        con_r_nodes <- successors nd network;;
        con_p_nodes <- predecessors nd network;;
        match mine_ids' with
        | None => Raise UnboundLocalError
        | Some ids =>
            g <- transfer_edges (elements ids) con_r_nodes con_p_nodes network;;
            g' <- remove_node nd g;;
            Ok (Through g' mine_ids')
        end
    end
  else Ok (Through network mine_ids).

(** The second loop over the nodes. *)
Fixpoint transplant (kegg_to_mine : gmap string (gset string))
    (kc_node_count : Z) (nodes : list nat) (network : DiGraph)
    (mine_ids : option (gset string)) (n : Z) : Result DiGraph :=
  match nodes with
  | [] => Ok network
  | nd :: rest =>
      ended <- transplant_node kegg_to_mine nd network mine_ids;;
      match ended with
      | Continue => transplant kegg_to_mine kc_node_count rest network mine_ids n
      | Through network' mine_ids' =>
          (* progress = float(100 * n / kc_node_count) *)
          if kc_node_count =? 0 then Raise ZeroDivisionError
          else transplant kegg_to_mine kc_node_count rest network' mine_ids' (n + 1)
      end
  end.

Definition KeggMineIntegration (network : DiGraph) : Result DiGraph :=
  let nodes := elements (dom (node network)) in
  indexed <- index_mine_nodes network nodes ∅ 0 0;;
  let '(kegg_to_mine, c_node_count, mc_node_count) := indexed in
  transplant kegg_to_mine (c_node_count - mc_node_count) nodes network None 0.

(** ** The notions of the specification *)

(** A compound exceeds the carbon limit: the carbon count of its formula is
    strictly above it.  A compound that carries no formula passes. *)
Definition exceeds_limit (comp : MineRecord) (C_limit : Z) : bool :=
  match Formula comp with
  | None => false
  | Some formula => bool_decide (carbon_count formula > C_limit)
  end.

(** A compound has zero carbons: it carries a formula, and the carbon count
    of the formula is 0. *)
Definition has_zero_carbons (comp : MineRecord) : Prop :=
  exists formula, Formula comp = Some formula /\ carbon_count formula = 0.

(** The list of a compound record that attests a connection to a role node:
    [Reactant_in] for the roles [rf] and [pr], [Product_of] for [pf] and
    [rr]. *)
Definition relevant_list (r_type : string) (rec : MineRecord) : option (list string) :=
  if bool_decide (r_type ∈ ["rf"; "pr"]) then Reactant_in rec
  else if bool_decide (r_type ∈ ["pf"; "rr"]) then Product_of rec
  else None.

(** The nodes of a graph are numbered 1..n, as [AddCompoundNode] and
    [AddQuadReactionNode] number them. *)
Definition numbered (g : DiGraph) : Prop :=
  forall n : nat, is_Some (node g !! n) <-> (1 <= n <= size (node g))%nat.

(** Every node that the compound-id index points at is a node of the graph
    and carries an id. *)
Definition index_resolves (g : DiGraph) : Prop :=
  forall c_mid n, index_lookup (cmid2node g) c_mid = Some n ->
    exists attr m, node g !! n = Some attr /\ n_mid attr = Some m.

(** The index points at numbers that are in use. *)
Definition index_bounded (g : DiGraph) : Prop :=
  forall c_mid n, index_lookup (cmid2node g) c_mid = Some n ->
    (n <= size (node g))%nat.

(** Two distinct compound ids never map to the same node number. *)
Definition index_injective (g : DiGraph) : Prop :=
  forall c_mid1 c_mid2 n,
    index_lookup (cmid2node g) c_mid1 = Some n ->
    index_lookup (cmid2node g) c_mid2 = Some n -> c_mid1 = c_mid2.

(** What the loop over the compounds maintains. *)
Definition index_inv (g : DiGraph) : Prop :=
  numbered g /\ index_resolves g /\ index_injective g.

(** The attributes of a role node. *)
Definition role_attr (role rxn_id : string) (members : gset nat) : NodeAttr :=
  mkAttr (Some role) (Some rxn_id) None (Some members).

(** The nodes that the index gives for a list of compound ids. *)
Definition resolved (index : option (gmap string nat)) (c_mids : list string)
    : gset nat :=
  list_to_set (omap (index_lookup index) c_mids).

(** An edge between a role node and one of its compound nodes, in the
    direction of the role. *)
Definition member_edge (inward : bool) (N : nat) (members : gset nat)
    (e : nat * nat) : Prop :=
  if inward then e.2 = N /\ e.1 ∈ members else e.1 = N /\ e.2 ∈ members.

(** The fixture of [test_ConstructNetwork]. *)
Definition net_comp (i : string) (rin pof : option (list string)) : MineRecord :=
  mkRecord (Some i) None None rin pof None None None None.

Definition net_rxn (i : string) (rs ps : list string) : MineRecord :=
  mkRecord (Some i) None None None None None
           (Some (Part 1 <$> rs)) (Some (Part 1 <$> ps)) None.

Definition test_comp_dict : gmap string MineRecord :=
  list_to_map [
    ("C1", net_comp "C1" (Some ["R99"]) None);
    ("C2", net_comp "C2" (Some ["R1e"]) (Some ["R99"]));
    ("C3", net_comp "C3" (Some ["Rcd"]) (Some ["R99"; "Rc3"]));
    ("C4", net_comp "C4" None (Some ["R1e"]));
    ("C5", net_comp "C5" (Some ["Rc3"; "R2f"]) (Some ["Rcd"; "R1e"]));
    ("C6", net_comp "C6" None (Some ["Rcd"]));
    ("C7", net_comp "C7" None (Some ["R2f"; "R7f"]));
    ("C8", net_comp "C8" (Some ["Rb7"]) (Some ["R2f"]))
  ].

Definition test_rxn_dict : gmap string MineRecord :=
  list_to_map [
    ("R1e", net_rxn "R1e" ["C2"] ["C4"; "C5"]);
    ("R2f", net_rxn "R2f" ["C5"] ["C7"; "C8"]);
    ("R99", net_rxn "R99" ["C1"] ["C2"; "C3"]);
    ("Rc3", net_rxn "Rc3" ["C5"] ["C3"]);
    ("Rcd", net_rxn "Rcd" ["C3"] ["C5"; "C6"])
  ].

(** The edges that [test_ConstructNetwork] expects. *)
Definition test_expected_edges : gset (nat * nat) :=
  list_to_set [
    (9, 10); (11, 12); (13, 14); (15, 16); (17, 18); (19, 20); (21, 22);
    (23, 24); (25, 26); (27, 28);
    (1, 17); (20, 1);
    (18, 2); (2, 19); (2, 9); (12, 2);
    (18, 3); (3, 19); (3, 23); (22, 3); (3, 25); (28, 3);
    (10, 4); (4, 11);
    (10, 5); (5, 11); (24, 5); (5, 21); (26, 5); (5, 27); (5, 13); (16, 5);
    (26, 6); (6, 27);
    (14, 7); (7, 15);
    (14, 8); (8, 15)
  ]%nat.

(** ** Fixtures *)

(** The graph [G3] of [test_AddQuadReactionNode], as [AddCompoundNode] builds
    it from its five compounds, and its reactions. *)
Definition quad_comp_dict : gmap string MineRecord :=
  list_to_map [
    ("C1", net_comp "C1" (Some ["R1"]) None);
    ("C2", net_comp "C2" (Some ["R2"]) (Some ["R1"]));
    ("C3", net_comp "C3" None (Some ["R2"]));
    ("X1", net_comp "X1" None None);
    ("X2", net_comp "X2" None None)
  ].

Definition quad_rxn : MineRecord := net_rxn "R1" ["C1"; "X1"] ["C2"; "X2"].

Definition quad_rxn2 : MineRecord := net_rxn "R2" ["C2"] ["C3"].

Definition quad_mine_data : gmap string MineRecord :=
  list_to_map [("R1", quad_rxn); ("R2", quad_rxn2)] ∪ quad_comp_dict.

Definition comp_attr (mid : string) (start : bool) : NodeAttr :=
  mkAttr (Some "c") (Some mid) (Some start) None.

Definition quad_graph : DiGraph :=
  mkGraph
    (list_to_map [
       (1%nat, comp_attr "C1" false); (2%nat, comp_attr "C2" false);
       (3%nat, comp_attr "C3" false); (4%nat, comp_attr "X1" true);
       (5%nat, comp_attr "X2" true)])
    ∅
    (Some (list_to_map [("C1", 1%nat); ("C2", 2%nat); ("C3", 3%nat);
                        ("X1", 4%nat); ("X2", 5%nat)]))
    (Some quad_mine_data).

(** A graph whose node numbers have a gap, as [remove_node] leaves them:
    the compound nodes 2 and 3, and a reaction between the two. *)
Definition gap_graph : DiGraph :=
  mkGraph
    (list_to_map [(2%nat, comp_attr "C2" false); (3%nat, comp_attr "C3" false)])
    ∅
    (Some (list_to_map [("C2", 2%nat); ("C3", 3%nat)]))
    (Some (list_to_map [("C2", net_comp "C2" (Some ["R2"]) None);
                        ("C3", net_comp "C3" None (Some ["R2"]));
                        ("R2", quad_rxn2)])).

(** The graph of [test_CheckConnection]. *)
Definition check_graph : DiGraph :=
  mkGraph
    (list_to_map [
       (1%nat, mkAttr (Some "c") (Some "C1") None None);
       (2%nat, mkAttr (Some "c") (Some "C2") None None);
       (3%nat, role_attr "rf" "R1" {[1%nat; 2%nat]});
       (4%nat, role_attr "pf" "R1" {[5%nat]});
       (5%nat, mkAttr (Some "c") (Some "C3") None None);
       (6%nat, role_attr "rr" "R1" {[5%nat]});
       (7%nat, role_attr "pr" "R1" {[1%nat; 2%nat]})])
    ∅ None
    (Some (list_to_map [
       ("C1", net_comp "C1" (Some ["R1"]) None);
       ("C2", net_comp "C2" (Some ["R1"]) None);
       ("R1", net_rxn "R1" ["C1"; "C2"] ["C3"]);
       ("C3", net_comp "C3" None (Some ["R1"]))])).

(** Phosphate, an [X] compound without carbon. *)
Definition phosphate : MineRecord :=
  mkRecord (Some "X96ff2c653c25b4f3c6fab12b241ec78bff13a751") (Some "H3O4P")
           None None None None None None None.

(** The start set of [test_AddCompoundNode]. *)
Definition test_sids : gset string :=
  {[ "Cf5dc8599a48d0111a3a5f618296752e1b53c8d30";
     "C89b394fd02e5e5e60ae1e167780ea7ab3276288e" ]}.

(** The graph [G] of [test_KeggMineIntegration]. *)
Definition kegg_data (kegg : string) (rin pof : option (list string)) : MineRecord :=
  mkRecord None None None rin pof (Some {["KEGG" := [kegg]]}) None None None.

Definition empty_record : MineRecord :=
  mkRecord None None None None None None None None None.

Definition kegg_test_graph : DiGraph :=
  mkGraph
    (list_to_map [
       (1%nat, comp_attr "C00001" true);
       (2%nat, comp_attr "C00002" false);
       (3%nat, comp_attr "C00003" false);
       (4%nat, comp_attr "C00004" false);
       (5%nat, comp_attr "X490c4e9c5d9c3b903bab41ff596eca62ed06130d" true);
       (6%nat, comp_attr "C683de2716dd472f4da0a144683d31a10e48a45fc" false);
       (7%nat, comp_attr "C069ca544492566919b8c9d20984e55b37a9f79a8" false);
       (8%nat, comp_attr "C123097ef07e00abcd707e873bbd09783da730a38" false);
       (9%nat, role_attr "rf" "R00001" {[1%nat]});
       (10%nat, role_attr "pf" "R00001" {[3%nat]});
       (11%nat, role_attr "rr" "R00001" {[3%nat]});
       (12%nat, role_attr "pr" "R00001" {[1%nat]});
       (13%nat, role_attr "rf" "R00002" {[3%nat]});
       (14%nat, role_attr "pf" "R00002" {[2%nat]});
       (15%nat, role_attr "rr" "R00002" {[2%nat]});
       (16%nat, role_attr "pr" "R00002" {[3%nat]});
       (17%nat, role_attr "rf" "Rf2279c67b1b433641502020c3ddd46b911827b88" {[5%nat]});
       (18%nat, role_attr "pf" "Rf2279c67b1b433641502020c3ddd46b911827b88" {[7%nat]});
       (19%nat, role_attr "rr" "Rf2279c67b1b433641502020c3ddd46b911827b88" {[7%nat]});
       (20%nat, role_attr "pr" "Rf2279c67b1b433641502020c3ddd46b911827b88" {[5%nat]});
       (21%nat, role_attr "rf" "Re9283748451e3dc8254bcd45342926db929b2176" {[6%nat]});
       (22%nat, role_attr "pf" "Re9283748451e3dc8254bcd45342926db929b2176" {[8%nat]});
       (23%nat, role_attr "rr" "Re9283748451e3dc8254bcd45342926db929b2176" {[8%nat]});
       (24%nat, role_attr "pr" "Re9283748451e3dc8254bcd45342926db929b2176" {[6%nat]})])
    (list_to_set [
       (1, 9); (9, 10); (10, 3); (3, 11); (11, 12); (12, 1);
       (3, 13); (13, 14); (14, 2); (2, 15); (15, 16); (16, 3);
       (17, 18); (18, 7); (7, 19); (19, 20);
       (6, 21); (21, 22); (22, 8); (8, 23); (23, 24); (24, 6)]%nat)
    None
    (Some (list_to_map [
       ("C00001", kegg_data "C00001" (Some ["R00001"]) None);
       ("X490c4e9c5d9c3b903bab41ff596eca62ed06130d", kegg_data "C00001" None None);
       ("C00002", kegg_data "C00002" None (Some ["R00002"]));
       ("C683de2716dd472f4da0a144683d31a10e48a45fc",
        kegg_data "C00002" (Some ["Re9283748451e3dc8254bcd45342926db929b2176"]) None);
       ("C00003", kegg_data "C00003" (Some ["R00002"]) (Some ["R00001"]));
       ("C069ca544492566919b8c9d20984e55b37a9f79a8",
        kegg_data "C00003" None (Some ["Rf2279c67b1b433641502020c3ddd46b911827b88"]));
       ("C00004", kegg_data "C00004" None None);
       ("C123097ef07e00abcd707e873bbd09783da730a38",
        kegg_data "C00004" None (Some ["Re9283748451e3dc8254bcd45342926db929b2176"]));
       ("R00001", empty_record);
       ("Rf2279c67b1b433641502020c3ddd46b911827b88", empty_record);
       ("R00002", empty_record);
       ("Re9283748451e3dc8254bcd45342926db929b2176", empty_record)])).

(** ** Invariants of the expansion *)

(** The state a loop body hands back. *)
Definition flow_state (fl : Flow) : Expansion :=
  match fl with
  | Next st => st
  | Return st => st
  end.

(** The ids of the reactions of a fetched batch. *)
Definition rxn_ids_of (rxns : list (option MineRecord)) : list string :=
  omap (fun rxn => rxn ≫= _id) rxns.

(** Every stored compound passes the carbon limit, the counter is at least
    the number of stored compounds, and the counter is within a bound. *)
Definition expansion_ok (C_limit bound : Z) (st : Expansion) : Prop :=
  (forall k c, comp_dict st !! k = Some c -> exceeds_limit c C_limit = false)
  /\ Z.of_nat (size (comp_dict st)) <= comps st
  /\ comps st <= bound.

(** Stored and cached compounds are the records of the repository for their
    key, and an id marked as exceeding the limit has a record that exceeds
    it. *)
Definition comps_from_repository (GetComp : string -> option MineRecord)
    (C_limit : Z) (st : Expansion) : Prop :=
  (forall k c, comp_dict st !! k = Some c -> GetComp k = Some c)
  /\ (forall k c, comp_cache st !! k = Some c -> GetComp k = Some c)
  /\ (forall k, k ∈ comp_exceeding_C_limit st ->
        exists c, GetComp k = Some c /\ exceeds_limit c C_limit = true).

(** No marked reaction is stored; the reactions of the batch that are still
    to be explored have distinct ids, none of them stored. *)
Definition rxn_marks_ok (rest : list (option MineRecord)) (st : Expansion) : Prop :=
  (forall k, k ∈ rxn_exceeding_C_limit st -> rxn_dict st !! k = None)
  /\ NoDup (rxn_ids_of rest)
  /\ (forall r, r ∈ rxn_ids_of rest -> rxn_dict st !! r = None).

(** The two sets of marks of [st] are contained in those of [st']. *)
Definition marks_grow (st st' : Expansion) : Prop :=
  comp_exceeding_C_limit st ⊆ comp_exceeding_C_limit st'
  /\ rxn_exceeding_C_limit st ⊆ rxn_exceeding_C_limit st'.

(** The repository answers a query with the record of the queried id. *)
Definition answers_own_id (Get : string -> option MineRecord) : Prop :=
  forall k r k', Get k = Some r -> _id r = Some k' -> k' = k.

(** A small repository: ethanol [A] reacts to a C30 alkane [B] in [R1] and
    to propanol [D] in [R2]. *)
Definition repo_record (i formula : string) (rin pof : option (list string))
    : MineRecord :=
  mkRecord (Some i) (Some formula) None rin pof None None None None.

Definition repo_comp (comp_id : string) : option MineRecord :=
  if String.eqb comp_id "A" then Some (repo_record "A" "C2H6O" (Some ["R1"; "R2"]) None)
  else if String.eqb comp_id "B" then Some (repo_record "B" "C30H62" None (Some ["R1"]))
  else if String.eqb comp_id "D" then Some (repo_record "D" "C3H8O" None (Some ["R2"]))
  else None.

Definition repo_rxn (rxn_id : string) : option MineRecord :=
  if String.eqb rxn_id "R1" then Some (net_rxn "R1" ["A"] ["B"])
  else if String.eqb rxn_id "R2" then Some (net_rxn "R2" ["A"] ["D"])
  else None.

(** Results delivered in the order of the batch. *)
Definition in_order (ids : list string) : list string := ids.

(** An [X] compound that carries no formula, as in the fixtures of
    [test_AddQuadReactionNode]. *)
Definition bare_X1 : MineRecord := net_comp "X1" None None.

(** * Properties *)

Example LimitCarbon_C10H18O2 :
  LimitCarbon (mkRecord (Some "C1") (Some "C10H18O2") None None None None None None None) 0
  = Ok true.
Proof. reflexivity. Qed.

Example LimitCarbon_XeF4 :
  LimitCarbon (mkRecord (Some "C2") (Some "XeF4") None None None None None None None) 0
  = Ok false.
Proof. reflexivity. Qed.

Example LimitCarbon_CH3O :
  LimitCarbon (mkRecord (Some "C5") (Some "CH3O") None None None None None None None) 1
  = Ok false.
Proof. reflexivity. Qed.

Example split_C10 : split "C" "C10" = [""; "10"].
Proof. reflexivity. Qed.

Example split_aCbCc : split "C" "aCbCc" = ["a"; "b"; "c"].
Proof. reflexivity. Qed.

(** ** Facts about the string helpers *)

Lemma is_digit_not_C (a : ascii) : is_digit a = true -> Ascii.eqb a "C" = false.
Proof.
  intros Hd. destruct (Ascii.eqb_spec a "C") as [->|]; [|reflexivity].
  discriminate Hd.
Qed.

Lemma split_take_digits (r : string) : split "C" (take_digits r) = [take_digits r].
Proof.
  induction r as [|a r IH]; simpl; [reflexivity|].
  destruct (is_digit a) eqn:Hd; simpl; [|reflexivity].
  rewrite (is_digit_not_C a Hd), IH. reflexivity.
Qed.

Lemma re_search_C_digits (s : string) :
  re_search_C s = (fun d => String "C" d) <$> digits_after_first_C s.
Proof.
  induction s as [|a s IH]; simpl; [reflexivity|].
  destruct (Ascii.eqb a "C"); [reflexivity|exact IH].
Qed.

Lemma digits_after_first_C_digits (s d : string) :
  digits_after_first_C s = Some d -> take_digits d = d.
Proof.
  induction s as [|a s IH]; simpl; [discriminate|].
  destruct (Ascii.eqb a "C"); [|exact IH].
  intros [= <-]. clear IH. induction s as [|b s IH]; simpl; [reflexivity|].
  destruct (is_digit b) eqn:Hb; simpl; [|reflexivity].
  rewrite Hb, IH. reflexivity.
Qed.

(** [LimitCarbon] never raises, and compares the carbon count of the
    specification with the limit. *)
Lemma LimitCarbon_eq (comp : MineRecord) (C_limit : Z) :
  LimitCarbon comp C_limit = Ok (exceeds_limit comp C_limit).
Proof.
  unfold LimitCarbon, exceeds_limit, carbon_count.
  destruct (Formula comp) as [formula|]; [|reflexivity].
  rewrite re_search_C_digits.
  destruct (digits_after_first_C formula) as [d|] eqn:Hd; simpl; [|reflexivity].
  change (Ascii.eqb "C" "C") with true. cbv iota.
  rewrite <- (digits_after_first_C_digits _ _ Hd), split_take_digits.
  simpl. unfold int.
  destruct (take_digits d) as [|a d']; [reflexivity|].
  destruct (decimal_go 0 (String a d')); reflexivity.
Qed.


Lemma decimal_go_nonneg (s : string) : forall acc n,
  0 <= acc -> decimal_go acc s = Some n -> 0 <= n.
Proof.
  induction s as [|a s IH]; simpl; intros acc n Hacc.
  - intros [= <-]. exact Hacc.
  - destruct (is_digit a) eqn:Hd; [|discriminate].
    apply IH. unfold digit_value. unfold is_digit in Hd.
    apply andb_true_iff in Hd as [Hlo _]. apply Nat.leb_le in Hlo. lia.
Qed.

Lemma carbon_count_nonneg (formula : string) : 0 <= carbon_count formula.
Proof.
  unfold carbon_count. destruct (digits_after_first_C formula) as [d|]; [|lia].
  destruct d as [|a d]; [lia|].
  destruct (decimal_go 0 (String a d)) as [n|] eqn:Hn; simpl; [|lia].
  eapply decimal_go_nonneg; [|exact Hn]. lia.
Qed.

Lemma exceeds_limit_0 (comp : MineRecord) :
  exceeds_limit comp 0 = false <-> Formula comp = None \/ has_zero_carbons comp.
Proof.
  unfold exceeds_limit, has_zero_carbons. destruct (Formula comp) as [f|].
  - pose proof (carbon_count_nonneg f). rewrite bool_decide_eq_false. split.
    + intros Hle. right. exists f. split; [done|lia].
    + intros [?|(f' & [= <-] & Hz)]; [done|lia].
  - split; [by left|done].
Qed.

(** ** The assertions of the tests that need no repository *)

Example AllowReactionListing_test :
  let cpd := kegg_comp "C1" (Some ["R1"; "R2"]) "C10" in
  let atp := mkRecord (Some "C00002") None (Some ["R1"; "R2"]) None None None None None None in
  let rxn (i : string) (rp : list (string * (string * string))) :=
    mkRecord (Some i) None None None None None None None (Some rp) in
  AllowReactionListing cpd (rxn "R1" [("RP1", ("C1_C2", "main")); ("RP2", ("C3_C4", "cofac"))])
  = Ok true
  /\ AllowReactionListing cpd (rxn "R2" [("RP3", ("C1_C5", "cofac")); ("RP4", ("C6_C7", "main"))])
     = Ok false
  /\ AllowReactionListing cpd (rxn "R1" [("RP1", ("C5_C2", "main")); ("RP2", ("C3_C4", "cofac"))])
     = Ok true
  /\ AllowReactionListing atp (rxn "R1" [("RP00003", ("C00002_C00008", "ligase"))])
     = Ok false.
Proof. repeat split; vm_compute; reflexivity. Qed.

Example ExtractReactionCompIds_test :
  ExtractReactionCompIds (net_rxn "R1" ["X1"; "X2"] ["C1"; "C2"]) = ["X1"; "X2"; "C1"; "C2"]
  /\ ExtractReactionCompIds
       (mkRecord (Some "R3") None None None None None (Some [ShortEntry]) None None)
     = [].
Proof. split; reflexivity. Qed.

Example ExtractCompReactionIds_test :
  ExtractCompReactionIds (net_comp "C1" (Some ["R1"]) None) = ["R1"]
  /\ ExtractCompReactionIds (net_comp "C1" (Some ["R2"]) (Some ["R3"])) = ["R2"; "R3"]
  /\ ExtractCompReactionIds (net_comp "C1" None (Some ["R3"; "R4"])) = ["R3"; "R4"]
  /\ ExtractCompReactionIds (net_comp "C4" None None) = [].
Proof. repeat split; reflexivity. Qed.

(** ** SortKeggReactions on the fixture of its test *)

(** The whole dictionary that [test_SortKeggReactions] expects. *)
Example SortKeggReactions_test :
  (sorted <- SortKeggReactions test_kegg_comp_dict test_kegg_rxn_dict;;
   Ok ((fun k => (fun c => (Reactant_in c, Product_of c)) <$> sorted !! k)
         <$> ["C1"; "C2"; "C3"; "C4"; "C5"; "C6"]))
  = Ok [Some (Some ["R1"], None); Some (None, None);
        Some (Some ["R5"], Some ["R6"]); Some (None, Some ["R5"]);
        Some (None, None); Some (None, None)].
Proof. vm_compute. reflexivity. Qed.


(** C9: in the fixture of [test_SortKeggReactions], compound C1 (formula
    C10H18O2) lists R1 and R2 and is a reactant of both; the RPair entry RP3
    of R2 pairs it as [cofac], so [AllowReactionListing] refuses R2 and admits
    R1, and after [SortKeggReactions] C1 has [Reactant_in] equal to ["R1"] and
    no [Product_of]. *)
Theorem SortKeggReactions_C1_cofactor :
  exists c1 r1 r2 sorted c1',
    test_kegg_comp_dict !! "C1" = Some c1
    /\ Reactions c1 = Some ["R1"; "R2"]
    /\ test_kegg_rxn_dict !! "R1" = Some r1
    /\ test_kegg_rxn_dict !! "R2" = Some r2
    /\ side_ids (Reactants r1) = ["C1"]
    /\ side_ids (Reactants r2) = ["C1"; "C100"]
    /\ AllowReactionListing c1 r1 = Ok true
    /\ AllowReactionListing c1 r2 = Ok false
    /\ SortKeggReactions test_kegg_comp_dict test_kegg_rxn_dict = Ok sorted
    /\ sorted !! "C1" = Some c1'
    /\ Reactant_in c1' = Some ["R1"]
    /\ Product_of c1' = None.
Proof.
  do 5 eexists. repeat split; vm_compute; reflexivity.
Qed.

(** ** CheckConnection *)

(** C4: for a graph with a [mine_data] map, a compound node [c] and a reaction
    role node [r], [CheckConnection] returns a boolean and never raises; it is
    [True] exactly when the reaction id of [r] occurs in the list of the
    record of [c] that is relevant for the type of [r] ([Reactant_in] for
    [rf] and [pr], [Product_of] for [pf] and [rr]), and [False] when that
    list is absent. *)
Theorem CheckConnection_fidelity (g : DiGraph) (data : gmap string MineRecord)
    (c r : nat) (c_attr r_attr : NodeAttr) (c_mid r_mid r_type : string) :
  mine_data g = Some data ->
  node g !! c = Some c_attr -> n_type c_attr = Some "c" -> n_mid c_attr = Some c_mid ->
  node g !! r = Some r_attr -> n_type r_attr = Some r_type -> n_mid r_attr = Some r_mid ->
  r_type ∈ ["rf"; "pf"; "rr"; "pr"] ->
  exists b,
    CheckConnection g c r = Ok b
    /\ (b = true <->
        exists rec l, data !! c_mid = Some rec
                      /\ relevant_list r_type rec = Some l /\ r_mid ∈ l)
    /\ ((forall rec, data !! c_mid = Some rec -> relevant_list r_type rec = None)
        -> b = false).
Proof.
  intros Hdata Hc _ Hcm Hr Hrt Hrm Hrole.
  unfold CheckConnection, node_attr, listed_in.
  rewrite Hc, Hcm, Hr, Hrm, Hrt, Hdata. simpl.
  eexists. split; [reflexivity|].
  assert (Hcases : r_type = "rf" \/ r_type = "pf" \/ r_type = "rr" \/ r_type = "pr").
  { rewrite !elem_of_cons, elem_of_nil in Hrole. tauto. }
  destruct (data !! c_mid) as [rec|] eqn:Hrec.
  - assert (Hrel :
      ((if bool_decide (r_type ∈ ["rf"; "pr"])
        then match Reactant_in rec with
             | Some l => bool_decide (r_mid ∈ l) | None => false end
        else false)
       || (if bool_decide (r_type ∈ ["pf"; "rr"])
           then match Product_of rec with
                | Some l => bool_decide (r_mid ∈ l) | None => false end
           else false))
      = match relevant_list r_type rec with
        | Some l => bool_decide (r_mid ∈ l) | None => false end).
    { unfold relevant_list.
      destruct Hcases as [-> | [-> | [-> | ->]]]; simpl;
        rewrite ?orb_false_r; reflexivity. }
    rewrite Hrel. split.
    + split.
      * destruct (relevant_list r_type rec) as [l|] eqn:Hl; [|discriminate].
        intros Hb%bool_decide_eq_true. eauto.
      * intros (rec' & l & [= <-] & Hl & Hin). rewrite Hl.
        by apply bool_decide_eq_true.
    + intros Habs. by rewrite (Habs rec eq_refl).
  - repeat case_bool_decide; simpl; split; try done;
      split; try done; intros (? & ? & ? & _); done.
Qed.

(** ** AddCompoundNode *)

Lemma is_start_spec (compound : MineRecord) (mid : string) (ids : gset string) (b : bool) :
  is_start compound mid ids = Ok b ->
  (b = true <->
   mid ∈ ids \/ String "C" (str_tail mid) ∈ ids
   \/ ((exists rest, mid = String "X" rest)
       /\ (Formula compound = None \/ has_zero_carbons compound))).
Proof.
  unfold is_start.
  case_bool_decide as H1; [intros [= <-]; tauto|].
  case_bool_decide as H2; [intros [= <-]; tauto|].
  destruct mid as [|a rest]; simpl; [discriminate|].
  destruct (Ascii.eqb_spec a "X") as [->|Hne].
  - rewrite LimitCarbon_eq. simpl. intros [= <-].
    rewrite negb_true_iff, exceeds_limit_0. split; [eauto 6|].
    intros [?|[?|[_ ?]]]; done.
  - intros [= <-]. split; [done|].
    intros [?|[?|[[rest' [= -> _]] _]]]; done.
Qed.

(** C8, as the code has it: a compound node created by [AddCompoundNode] has
    its [start] attribute [True] exactly when the compound id is in the start
    set, or the id with its first character replaced by [C] is in the start
    set, or the id begins with [X] and [LimitCarbon(compound, 0)] is [False]:
    the compound has zero carbons, or it carries no formula at all;
    otherwise the attribute is [False]. *)
Theorem AddCompoundNode_start (graph graph' : DiGraph) (compound : MineRecord)
    (start_comp_ids : gset string) (mid : string) :
  _id compound = Some mid ->
  AddCompoundNode graph compound start_comp_ids = Ok graph' ->
  exists attr b,
    node graph' !! S (size (node graph)) = Some attr
    /\ n_type attr = Some "c" /\ n_mid attr = Some mid /\ n_start attr = Some b
    /\ (b = true <->
        mid ∈ start_comp_ids \/ String "C" (str_tail mid) ∈ start_comp_ids
        \/ ((exists rest, mid = String "X" rest)
            /\ (Formula compound = None \/ has_zero_carbons compound))).
Proof.
  intros Hid. unfold AddCompoundNode. rewrite Hid.
  destruct (is_start compound mid start_comp_ids) as [b|e] eqn:Hb; simpl; [|discriminate].
  intros [= <-]. simpl. rewrite lookup_insert_eq.
  apply is_start_spec in Hb.
  destruct (node graph !! S (size (node graph))) as [old|];
    eexists _, b; simpl; repeat split; tauto.
Qed.

(** An [X] compound without a formula becomes a start node although it is in
    neither form in the start set and has no carbon count of zero:
    [LimitCarbon] lets a compound without a formula pass. *)
Lemma AddCompoundNode_start_no_formula_counterexample :
  exists graph' attr,
    AddCompoundNode (mkGraph ∅ ∅ None None) bare_X1 ∅ = Ok graph'
    /\ node graph' !! 1%nat = Some attr
    /\ n_start attr = Some true
    /\ ~ ("X1" ∈ (∅ : gset string) \/ String "C" (str_tail "X1") ∈ (∅ : gset string)
          \/ ((exists rest, "X1" = String "X" rest) /\ has_zero_carbons bare_X1)).
Proof.
  eexists _, _. split; [vm_compute; reflexivity|].
  split; [vm_compute; reflexivity|]. split; [reflexivity|].
  intros [Hin|[Hin|[_ (f & Hf & _)]]].
  - by apply not_elem_of_empty in Hin.
  - by apply not_elem_of_empty in Hin.
  - discriminate Hf.
Qed.

(** ** ExpandStartCompIds *)

Lemma add_shared_spec (kegg_ids : gset string) (items : list (string * MineRecord)) :
  forall ids : gset string,
    ids ⊆ add_shared kegg_ids items ids
    /\ forall x, x ∈ add_shared kegg_ids items ids -> x ∈ ids \/ x ∈ items.*1.
Proof.
  induction items as [|[comp_id comp] items IH]; intros ids; simpl.
  - split; [done|auto].
  - assert (Hkeep :
      ids ⊆ add_shared kegg_ids items ids
      /\ forall x, x ∈ add_shared kegg_ids items ids ->
                   x ∈ ids \/ x ∈ comp_id :: items.*1).
    { destruct (IH ids) as [Hsub Hnew]. split; [done|].
      intros x Hx. destruct (Hnew x Hx); [by left|right; by apply elem_of_cons; right]. }
    destruct (kegg_links comp) as [l|]; [|exact Hkeep].
    case_bool_decide; [|exact Hkeep].
    destruct (IH ({[comp_id]} ∪ ids)) as [Hsub Hnew]. split.
    + intros x Hx. apply Hsub, elem_of_union. by right.
    + intros x Hx. destruct (Hnew x Hx) as [Hin|Hin].
      * apply elem_of_union in Hin as [->%elem_of_singleton|Hin]; [|by left].
        right. apply elem_of_cons. by left.
      * right. apply elem_of_cons. by right.
Qed.

(** C10: the set returned by [ExpandStartCompIds] contains every id of the
    input start set, and every id it adds is a key of the compound
    dictionary. *)
Theorem ExpandStartCompIds_superset (comp_dict : gmap string MineRecord)
    (start_comp_ids : gset string) (extra_kegg_ids : list string) :
  start_comp_ids ⊆ ExpandStartCompIds comp_dict start_comp_ids extra_kegg_ids
  /\ forall x, x ∈ ExpandStartCompIds comp_dict start_comp_ids extra_kegg_ids ->
               x ∉ start_comp_ids -> x ∈ dom comp_dict.
Proof.
  unfold ExpandStartCompIds.
  destruct (add_shared_spec
              (gather_kegg_ids comp_dict (elements start_comp_ids)
                 (list_to_set extra_kegg_ids))
              (map_to_list comp_dict) start_comp_ids) as [Hsub Hnew].
  split; [exact Hsub|].
  intros x Hx Hnot. destruct (Hnew x Hx) as [?|Hin]; [done|].
  apply list_elem_of_fmap in Hin as ([k v] & -> & Hkv).
  apply elem_of_map_to_list in Hkv. apply elem_of_dom. eauto.
Qed.

Example ExpandStartCompIds_test :
  ExpandStartCompIds
    (list_to_map [
       ("S1", mkRecord (Some "S1") None None None None (Some {["KEGG" := ["C00001"]]}) None None None);
       ("S2", mkRecord (Some "S2") None None None None (Some {["KEGG" := ["C00002"; "C00003"]]}) None None None);
       ("S3", mkRecord (Some "S3") None None None None (Some ∅) None None None);
       ("S4", mkRecord (Some "S4") None None None None None None None None);
       ("C1", mkRecord (Some "C1") None None None None (Some {["KEGG" := ["C00001"]]}) None None None);
       ("C2", mkRecord (Some "C2") None None None None (Some ∅) None None None);
       ("C3", mkRecord (Some "C3") None None None None None None None None);
       ("C4", mkRecord (Some "C4") None None None None (Some {["KEGG" := ["C00002"]]}) None None None);
       ("X1", mkRecord (Some "X1") None None None None (Some {["KEGG" := ["C00002"; "C10284"]]}) None None None);
       ("X5", mkRecord (Some "X5") None None None None (Some {["KEGG" := ["C00006"; "C00007"]]}) None None None);
       ("X6", mkRecord (Some "X6") None None None None (Some {["KEGG" := ["C11111"]]}) None None None)])
    (list_to_set ["S1"; "S2"; "S3"; "S4"]) ["C11111"]
  = list_to_set ["S1"; "S2"; "S3"; "S4"; "C1"; "C4"; "X1"; "X6"].
Proof. vm_compute. reflexivity. Qed.

(** ** ConstructNetwork on the fixture of its test *)

Example ConstructNetwork_test :
  (g <- ConstructNetwork test_comp_dict test_rxn_dict ["C1"] [];;
   Ok (size (node g), edges g,
       n_start <$> node g !! 1%nat, n_start <$> node g !! 2%nat,
       node g !! 17%nat))
  = Ok (28%nat, test_expected_edges, Some (Some true), Some (Some false),
        Some (role_attr "rf" "R99" {[1%nat]})).
Proof. vm_compute. reflexivity. Qed.

(** ** Graph operations *)

Lemma update_attr_empty (old : NodeAttr) :
  update_attr old (mkAttr None None None None) = old.
Proof. by destruct old. Qed.

Lemma add_edge_existing (u v : nat) (g : DiGraph) (a b : NodeAttr) :
  node g !! u = Some a -> node g !! v = Some b ->
  add_edge u v g = mkGraph (node g) ({[(u, v)]} ∪ edges g) (cmid2node g) (mine_data g).
Proof.
  intros Hu Hv. unfold add_edge, add_node. simpl.
  rewrite Hu, update_attr_empty, (insert_id _ _ _ Hu).
  rewrite Hv, update_attr_empty, (insert_id _ _ _ Hv). reflexivity.
Qed.

Lemma add_edge_cmid2node (u v : nat) (g : DiGraph) :
  cmid2node (add_edge u v g) = cmid2node g.
Proof. reflexivity. Qed.

Lemma CheckConnection_Ok_nodes (g : DiGraph) (c N : nat) (b : bool) :
  CheckConnection g c N = Ok b -> is_Some (node g !! c) /\ is_Some (node g !! N).
Proof.
  unfold CheckConnection, node_attr.
  destruct (node g !! c); [|discriminate].
  destruct (node g !! N); [|by destruct (n_mid _)].
  eauto.
Qed.

Lemma CheckConnection_total (g : DiGraph) (c N : nat)
    (c_attr r_attr : NodeAttr) (c_mid r_mid r_type : string) :
  node g !! c = Some c_attr -> n_mid c_attr = Some c_mid ->
  node g !! N = Some r_attr -> n_mid r_attr = Some r_mid ->
  n_type r_attr = Some r_type ->
  exists b, CheckConnection g c N = Ok b.
Proof.
  intros Hc Hcm Hr Hrm Hrt. unfold CheckConnection, node_attr.
  rewrite Hc, Hcm, Hr, Hrm, Hrt. simpl. eauto.
Qed.

(** The connecting loop leaves the index alone. *)
Lemma connect_cmid2node (inward : bool) (N : nat) (c_nodes : list nat) :
  forall g g', connect inward N c_nodes g = Ok g' -> cmid2node g' = cmid2node g.
Proof.
  induction c_nodes as [|c c_nodes IH]; simpl; intros g g'.
  - by intros [= <-].
  - destruct (CheckConnection g c N) as [[|]|]; simpl; [| |discriminate].
    + intros ->%IH. by destruct inward.
    + apply IH.
Qed.

(** With a role node that carries an id and a type, and compound nodes that
    carry an id, the connecting loop succeeds; it adds member edges only. *)
Lemma connect_spec (inward : bool) (N : nat) (r_attr : NodeAttr)
    (r_mid r_type : string) (c_nodes : list nat) :
  n_mid r_attr = Some r_mid -> n_type r_attr = Some r_type ->
  forall g,
    node g !! N = Some r_attr ->
    (forall c, c ∈ c_nodes ->
       exists attr m, node g !! c = Some attr /\ n_mid attr = Some m) ->
    exists g',
      connect inward N c_nodes g = Ok g'
      /\ node g' = node g /\ cmid2node g' = cmid2node g
      /\ mine_data g' = mine_data g
      /\ edges g ⊆ edges g'
      /\ forall e, e ∈ edges g' ->
           e ∈ edges g \/ member_edge inward N (list_to_set c_nodes) e.
Proof.
  intros Hrm Hrt. induction c_nodes as [|c c_nodes IH]; simpl; intros g HN Hc.
  - exists g. repeat split; auto.
  - destruct (Hc c) as (c_attr & c_mid & Hcn & Hcm); [by left|].
    destruct (CheckConnection_total g c N _ _ _ _ _ Hcn Hcm HN Hrm Hrt) as [b ->].
    simpl.
    assert (Hext : forall e (s : gset nat), member_edge inward N (list_to_set c_nodes) e ->
              member_edge inward N (list_to_set (c :: c_nodes)) e).
    { intros e _. unfold member_edge. simpl.
      destruct inward; intros [? ?]; split; auto; apply elem_of_union; by right. }
    destruct b.
    + set (g1 := if inward then add_edge c N g else add_edge N c g).
      assert (Hg1 : node g1 = node g /\ cmid2node g1 = cmid2node g
                    /\ mine_data g1 = mine_data g
                    /\ edges g1 = {[ if inward then (c, N) else (N, c) ]} ∪ edges g).
      { subst g1. destruct inward.
        - rewrite (add_edge_existing c N g _ _ Hcn HN). auto.
        - rewrite (add_edge_existing N c g _ _ HN Hcn). auto. }
      destruct Hg1 as (Hn1 & Hi1 & Hd1 & He1).
      destruct (IH g1) as (g' & Hg' & Hn & Hi & Hd & Hsub & Hnew).
      { by rewrite Hn1. }
      { intros c' Hc'. rewrite Hn1. apply Hc. by right. }
      exists g'. rewrite Hg', Hn, Hi, Hd. repeat split; auto.
      * intros e He. apply Hsub. rewrite He1. apply elem_of_union. by right.
      * intros e He. destruct (Hnew e He) as [Hold|Hm]; [|right; by apply (Hext e ∅)].
        rewrite He1 in Hold.
        apply elem_of_union in Hold as [->%elem_of_singleton|Hold]; [|by left].
        right. unfold member_edge. simpl.
        destruct inward; simpl; split; auto; apply elem_of_union; left;
          by apply elem_of_singleton.
    + destruct (IH g HN) as (g' & Hg' & Hn & Hi & Hd & Hsub & Hnew).
      { intros c' Hc'. apply Hc. by right. }
      exists g'. repeat split; auto.
      intros e He. destruct (Hnew e He); [by left|right; by apply (Hext e ∅)].
Qed.

(** A role node on a number that is free. *)
Lemma role_node_spec (N : nat) (role rxn_id : string) (members : gset nat)
    (inward : bool) (g : DiGraph) :
  node g !! N = None ->
  (forall c, c ∈ members ->
     exists attr m, node g !! c = Some attr /\ n_mid attr = Some m) ->
  exists g',
    role_node N role rxn_id members inward g = Ok g'
    /\ node g' = <[N := role_attr role rxn_id members]> (node g)
    /\ cmid2node g' = cmid2node g /\ mine_data g' = mine_data g
    /\ edges g ⊆ edges g'
    /\ forall e, e ∈ edges g' -> e ∈ edges g \/ member_edge inward N members e.
Proof.
  intros Hfree Hmem. unfold role_node.
  set (g0 := add_node N _ g).
  assert (Hn0 : node g0 = <[N := role_attr role rxn_id members]> (node g)).
  { subst g0. unfold add_node. simpl. by rewrite Hfree. }
  destruct (connect_spec inward N (role_attr role rxn_id members) rxn_id role
              (elements members) eq_refl eq_refl g0)
    as (g' & Hg' & Hn & Hi & Hd & Hsub & Hnew).
  { rewrite Hn0. apply lookup_insert_eq. }
  { intros c Hc%elem_of_elements. destruct (Hmem c Hc) as (attr & m & Hcn & Hcm).
    exists attr, m. split; [|done]. rewrite Hn0, lookup_insert_ne; [done|].
    intros ->. congruence. }
  exists g'. rewrite Hg', Hn, Hi, Hd, Hn0. repeat split; auto.
  intros e He. destruct (Hnew e He) as [?|Hm]; [by left|right].
  by rewrite list_to_set_elements_L in Hm.
Qed.

(** ** AddQuadReactionNode *)

Lemma elem_of_resolved (index : option (gmap string nat)) (c_mids : list string) (n : nat) :
  n ∈ resolved index c_mids <->
  exists c_mid, c_mid ∈ c_mids /\ index_lookup index c_mid = Some n.
Proof.
  unfold resolved. rewrite elem_of_list_to_set, list_elem_of_omap. reflexivity.
Qed.

Lemma resolved_elements (index : option (gmap string nat)) (c_mids : list string) :
  resolved index (elements (list_to_set c_mids : gset string)) = resolved index c_mids.
Proof.
  apply set_eq. intros n. rewrite !elem_of_resolved.
  split; intros (x & Hx & Hn); exists x; split; auto.
  - by apply elem_of_elements, elem_of_list_to_set in Hx.
  - by apply elem_of_elements, elem_of_list_to_set.
Qed.

Lemma resolve_nodes_all (index : option (gmap string nat)) (c_mids : list string) :
  forall found,
    (forall x, x ∈ c_mids -> is_Some (index_lookup index x)) ->
    resolve_nodes index c_mids found = Some (resolved index c_mids ∪ found).
Proof.
  induction c_mids as [|x c_mids IH]; intros found Hall; simpl.
  - f_equal. unfold resolved. simpl. by rewrite (left_id_L ∅ (∪)).
  - destruct (Hall x) as [n Hn]; [by left|]. rewrite Hn.
    rewrite IH; [|intros y Hy; apply Hall; by right].
    f_equal. unfold resolved. simpl. rewrite Hn. simpl.
    apply set_eq. intros m. rewrite !elem_of_union, elem_of_singleton. tauto.
Qed.

Lemma resolve_nodes_missing (index : option (gmap string nat)) (c_mids : list string) :
  forall found,
    (exists x, x ∈ c_mids /\ index_lookup index x = None) ->
    resolve_nodes index c_mids found = None.
Proof.
  induction c_mids as [|y c_mids IH]; intros found (x & Hx & Hnone); simpl.
  - by apply elem_of_nil in Hx.
  - destruct (index_lookup index y) as [n|] eqn:Hy; [|reflexivity].
    apply IH. exists x. split; [|done].
    apply elem_of_cons in Hx as [->|Hx]; [congruence|done].
Qed.

Lemma numbered_free (g : DiGraph) (n : nat) :
  numbered g -> (size (node g) < n)%nat -> node g !! n = None.
Proof.
  intros Hnum Hn. apply eq_None_not_Some. intros Hsome%Hnum. lia.
Qed.

(** C1, as the code has it: for a reaction with an id and well-formed reactant
    and product lists, on a graph whose nodes are numbered 1..n and whose
    index points at nodes carrying an id, when every participant resolves
    through the index, [AddQuadReactionNode] adds exactly the four role nodes
    [rf], [pf], [rr], [pr] on the next four numbers, with the edges rf->pf and
    rr->pr, and besides these only edges between a role node and its member
    compounds; on every graph, when some participant is absent from the
    index, the graph is returned as it was. *)
Theorem AddQuadReactionNode_quad (graph : DiGraph) (rxn : MineRecord)
    (rxn_id : string) (rs ps : list Participant) (r_ids p_ids : list string) :
  _id rxn = Some rxn_id ->
  Reactants rxn = Some rs -> Products rxn = Some ps ->
  participant_ids rs = Ok r_ids -> participant_ids ps = Ok p_ids ->
  ((forall x, x ∈ (r_ids ++ p_ids)%list -> is_Some (index_lookup (cmid2node graph) x)) ->
   numbered graph -> index_resolves graph ->
   exists graph',
     AddQuadReactionNode graph rxn = Ok graph'
     /\ let N := S (size (node graph)) in
        let rf := resolved (cmid2node graph) r_ids in
        let pf := resolved (cmid2node graph) p_ids in
        node graph' =
          <[(N + 3)%nat := role_attr "pr" rxn_id rf]>
            (<[(N + 2)%nat := role_attr "rr" rxn_id pf]>
               (<[(N + 1)%nat := role_attr "pf" rxn_id pf]>
                  (<[N := role_attr "rf" rxn_id rf]> (node graph))))
        /\ size (node graph') = (size (node graph) + 4)%nat
        /\ (N, (N + 1)%nat) ∈ edges graph'
        /\ ((N + 2)%nat, (N + 3)%nat) ∈ edges graph'
        /\ edges graph ⊆ edges graph'
        /\ (forall e, e ∈ edges graph' ->
              e ∈ edges graph
              \/ e = (N, (N + 1)%nat) \/ e = ((N + 2)%nat, (N + 3)%nat)
              \/ member_edge true N rf e \/ member_edge false (N + 1) pf e
              \/ member_edge true (N + 2) pf e \/ member_edge false (N + 3) rf e)
        /\ cmid2node graph' = cmid2node graph
        /\ mine_data graph' = mine_data graph)
  /\ ((exists x, x ∈ (r_ids ++ p_ids)%list /\ index_lookup (cmid2node graph) x = None) ->
      AddQuadReactionNode graph rxn = Ok graph).
Proof.
  intros Hid Hrs Hps Hr Hp. unfold AddQuadReactionNode.
  rewrite Hid, Hrs, Hps, Hr, Hp. split.
  - intros Hall Hnum Hres.
    rewrite resolve_nodes_all, resolved_elements, (right_id_L ∅ (∪)).
    2:{ intros x Hx%elem_of_elements%elem_of_list_to_set.
        apply Hall, elem_of_app. by left. }
    rewrite resolve_nodes_all, resolved_elements, (right_id_L ∅ (∪)).
    2:{ intros x Hx%elem_of_elements%elem_of_list_to_set.
        apply Hall, elem_of_app. by right. }
    cbv zeta. set (N := S (size (node graph))).
    set (rf := resolved (cmid2node graph) r_ids).
    set (pf := resolved (cmid2node graph) p_ids).
    assert (Hold : forall (s : gset nat) c, (c ∈ rf \/ c ∈ pf) ->
              exists attr m, node graph !! c = Some attr /\ n_mid attr = Some m).
    { intros _ c [Hc|Hc]; apply elem_of_resolved in Hc as (x & _ & Hx);
        exact (Hres x c Hx). }
    assert (Hlt : forall c attr, node graph !! c = Some attr -> (c < N)%nat).
    { intros c attr Hc. assert (is_Some (node graph !! c)) as Hs%Hnum by eauto.
      subst N. lia. }
    assert (Hfree : forall k, node graph !! (N + k)%nat = None).
    { intros k. apply numbered_free; [done|]. subst N. lia. }
    (* rf *)
    destruct (role_node_spec N "rf" rxn_id rf true graph)
      as (g1 & -> & Hn1 & Hi1 & Hd1 & Hs1 & He1).
    { rewrite <- (Nat.add_0_r N). apply Hfree. }
    { intros c Hc. apply (Hold ∅). by left. }
    cbn [bind].
    (* pf *)
    destruct (role_node_spec (N + 1) "pf" rxn_id pf false g1)
      as (g2 & -> & Hn2 & Hi2 & Hd2 & Hs2 & He2).
    { rewrite Hn1, lookup_insert_ne by lia. apply Hfree. }
    { intros c Hc. destruct (Hold ∅ c) as (attr & m & Hcn & Hcm); [by right|].
      exists attr, m. split; [|done]. rewrite Hn1, lookup_insert_ne; [done|].
      apply Hlt in Hcn. lia. }
    cbn [bind].
    assert (Hedge1 : add_edge N (N + 1) g2
                     = mkGraph (node g2) ({[(N, (N + 1)%nat)]} ∪ edges g2)
                         (cmid2node g2) (mine_data g2)).
    { eapply add_edge_existing.
      - rewrite Hn2, Hn1, lookup_insert_ne by lia. apply lookup_insert_eq.
      - rewrite Hn2. apply lookup_insert_eq. }
    rewrite Hedge1. set (g3 := mkGraph _ _ _ _).
    (* rr *)
    destruct (role_node_spec (N + 2) "rr" rxn_id pf true g3)
      as (g4 & -> & Hn4 & Hi4 & Hd4 & Hs4 & He4).
    { subst g3. simpl. rewrite Hn2, Hn1, !lookup_insert_ne by lia. apply Hfree. }
    { intros c Hc. destruct (Hold ∅ c) as (attr & m & Hcn & Hcm); [by right|].
      exists attr, m. split; [|done]. subst g3. simpl.
      apply Hlt in Hcn as Hc'. rewrite Hn2, Hn1, !lookup_insert_ne by lia. done. }
    cbn [bind].
    (* pr *)
    destruct (role_node_spec (N + 3) "pr" rxn_id rf false g4)
      as (g5 & -> & Hn5 & Hi5 & Hd5 & Hs5 & He5).
    { rewrite Hn4. subst g3. simpl.
      rewrite Hn2, Hn1, !lookup_insert_ne by lia. apply Hfree. }
    { intros c Hc. destruct (Hold ∅ c) as (attr & m & Hcn & Hcm); [by left|].
      exists attr, m. split; [|done]. rewrite Hn4. subst g3. simpl.
      apply Hlt in Hcn as Hc'. rewrite Hn2, Hn1, !lookup_insert_ne by lia. done. }
    cbn [bind].
    assert (Hedge2 : add_edge (N + 2) (N + 3) g5
                     = mkGraph (node g5) ({[((N + 2)%nat, (N + 3)%nat)]} ∪ edges g5)
                         (cmid2node g5) (mine_data g5)).
    { eapply add_edge_existing.
      - rewrite Hn5, Hn4, lookup_insert_ne by lia. apply lookup_insert_eq.
      - rewrite Hn5. apply lookup_insert_eq. }
    rewrite Hedge2. eexists. split; [reflexivity|]. cbn [node edges cmid2node mine_data].
    assert (Hnodes : node g5 =
      <[(N + 3)%nat := role_attr "pr" rxn_id rf]>
        (<[(N + 2)%nat := role_attr "rr" rxn_id pf]>
           (<[(N + 1)%nat := role_attr "pf" rxn_id pf]>
              (<[N := role_attr "rf" rxn_id rf]> (node graph))))).
    { rewrite Hn5, Hn4. subst g3. simpl. by rewrite Hn2, Hn1. }
    assert (H13 : (N, (N + 1)%nat) ∈ edges g5).
    { apply Hs5, Hs4. subst g3. simpl. apply elem_of_union. left.
      by apply elem_of_singleton. }
    split; [exact Hnodes|]. split.
    { rewrite Hnodes.
      rewrite !map_size_insert_None; [lia| | | |];
        rewrite ?lookup_insert_ne by lia;
        first [apply Hfree | rewrite <- (Nat.add_0_r N); apply Hfree]. }
    split; [apply elem_of_union; by right|].
    split; [apply elem_of_union; left; by apply elem_of_singleton|].
    split.
    { intros e He. apply elem_of_union. right. apply Hs5, Hs4. subst g3. simpl.
      apply elem_of_union. right. by apply Hs2, Hs1. }
    split.
    { intros e He.
      apply elem_of_union in He as [->%elem_of_singleton|He]; [tauto|].
      destruct (He5 e He) as [He'|?]; [|tauto].
      destruct (He4 e He') as [He''|?]; [|tauto].
      subst g3. simpl in He''.
      apply elem_of_union in He'' as [->%elem_of_singleton|He'']; [tauto|].
      destruct (He2 e He'') as [He3|?]; [|tauto].
      destruct (He1 e He3) as [?|?]; tauto. }
    split.
    { rewrite Hi5, Hi4. subst g3. simpl. by rewrite Hi2, Hi1. }
    { rewrite Hd5, Hd4. subst g3. simpl. by rewrite Hd2, Hd1. }
  - intros (x & Hx & Hnone). apply elem_of_app in Hx as [Hx|Hx].
    + rewrite resolve_nodes_missing; [reflexivity|].
      exists x. split; [|done]. by apply elem_of_elements, elem_of_list_to_set.
    + destruct (resolve_nodes _ (elements (list_to_set r_ids)) ∅); [|reflexivity].
      rewrite resolve_nodes_missing; [reflexivity|].
      exists x. split; [|done]. by apply elem_of_elements, elem_of_list_to_set.
Qed.

(** ** ConstructNetwork: the compound-id index *)

Lemma index_inv_empty (data : option (gmap string MineRecord)) :
  index_inv (mkGraph ∅ ∅ None data).
Proof.
  split; [|split].
  - intros n. simpl. rewrite lookup_empty, map_size_empty.
    split; [by intros [? ?]|lia].
  - intros c_mid n. discriminate.
  - intros c_mid1 c_mid2 n. discriminate.
Qed.

Lemma AddCompoundNode_index_inv (g g' : DiGraph) (compound : MineRecord)
    (start_comp_ids : gset string) :
  index_inv g -> AddCompoundNode g compound start_comp_ids = Ok g' -> index_inv g'.
Proof.
  intros (Hnum & Hres & Hinj). unfold AddCompoundNode.
  destruct (_id compound) as [mid|]; [|by intros [= <-]].
  destruct (is_start compound mid start_comp_ids) as [b|]; simpl; [|discriminate].
  intros [= <-].
  set (N := S (size (node g))).
  assert (Hfree : node g !! N = None) by (apply numbered_free; [done|subst N; lia]).
  rewrite Hfree.
  set (attr := mkAttr (Some "c") (Some mid) (Some b) None).
  set (idx := default ∅ (cmid2node g)).
  assert (Hidx : forall k, index_lookup (cmid2node g) k = idx !! k).
  { intros k. subst idx. destruct (cmid2node g); [done|]. simpl. by rewrite lookup_empty. }
  assert (Hnew : match cmid2node g with
                 | Some index => Some (<[mid := N]> index)
                 | None => Some {[mid := N]}
                 end = Some (<[mid := N]> idx)).
  { subst idx. destruct (cmid2node g); [done|]. simpl. by rewrite insert_empty. }
  rewrite Hnew. clear Hnew.
  split; [|split].
  - intros n. simpl. rewrite map_size_insert_None by done.
    destruct (decide (n = N)) as [->|Hne].
    + rewrite lookup_insert_eq. split; [subst N; lia|eauto].
    + rewrite lookup_insert_ne by done. pose proof (Hnum n) as Hn.
      unfold N in *. split; [intros Hs%Hn; lia|intros Hs; apply Hn; lia].
  - intros k n. simpl. destruct (decide (k = mid)) as [->|Hne].
    + rewrite lookup_insert_eq. intros [= <-]. exists attr, mid.
      by rewrite lookup_insert_eq.
    + rewrite lookup_insert_ne by done. rewrite <- Hidx. intros Hk.
      destruct (Hres k n Hk) as (a & m & Hn & Hm). exists a, m. split; [|done].
      rewrite lookup_insert_ne; [done|]. intros <-. congruence.
  - assert (Hold : forall k, idx !! k = Some N -> False).
    { intros k Hk. rewrite <- Hidx in Hk.
      destruct (Hres k N Hk) as (a & _ & Hn & _). congruence. }
    intros k1 k2 n. simpl.
    destruct (decide (k1 = mid)) as [->|Hne1], (decide (k2 = mid)) as [->|Hne2];
      rewrite ?lookup_insert_eq, ?lookup_insert_ne by done; try done.
    + intros [= <-] Hk2. by destruct (Hold k2).
    + intros Hk1 [= <-]. by destruct (Hold k1).
    + rewrite <- !Hidx. apply Hinj.
Qed.

Lemma add_compounds_index_inv (comp_dict : gmap string MineRecord)
    (start_comp_ids : gset string) (comp_ids : list string) :
  forall g g', index_inv g ->
    add_compounds comp_dict start_comp_ids comp_ids g = Ok g' -> index_inv g'.
Proof.
  induction comp_ids as [|comp_id comp_ids IH]; simpl; intros g g' Hinv.
  - by intros [= <-].
  - destruct (comp_dict !! comp_id) as [comp|]; [|discriminate].
    destruct (AddCompoundNode g comp start_comp_ids) as [g1|] eqn:Hg1; simpl;
      [|discriminate].
    apply IH. eapply AddCompoundNode_index_inv; eauto.
Qed.

Lemma role_node_cmid2node (N : nat) (role rxn_id : string) (members : gset nat)
    (inward : bool) (g g' : DiGraph) :
  role_node N role rxn_id members inward g = Ok g' -> cmid2node g' = cmid2node g.
Proof. unfold role_node. by intros ->%connect_cmid2node. Qed.

Lemma AddQuadReactionNode_cmid2node (g g' : DiGraph) (rxn : MineRecord) :
  AddQuadReactionNode g rxn = Ok g' -> cmid2node g' = cmid2node g.
Proof.
  unfold AddQuadReactionNode.
  destruct (_id rxn) as [rxn_id|]; [|by intros [= <-]].
  destruct (Reactants rxn) as [rs|]; [|by intros [= <-]].
  destruct (Products rxn) as [ps|]; [|by intros [= <-]].
  destruct (participant_ids rs) as [r_ids|]; [|by intros [= <-]].
  destruct (participant_ids ps) as [p_ids|]; [|by intros [= <-]].
  destruct (resolve_nodes _ _ _) as [rf|]; [|by intros [= <-]].
  destruct (resolve_nodes _ _ _) as [pf|]; [|by intros [= <-]].
  cbv zeta.
  destruct (role_node _ "rf" _ _ _ _) as [g1|] eqn:H1; cbn [bind]; [|discriminate].
  destruct (role_node _ "pf" _ _ _ _) as [g2|] eqn:H2; cbn [bind]; [|discriminate].
  destruct (role_node _ "rr" _ _ _ _) as [g4|] eqn:H4; cbn [bind]; [|discriminate].
  destruct (role_node _ "pr" _ _ _ _) as [g5|] eqn:H5; cbn [bind]; [|discriminate].
  intros [= <-]. rewrite add_edge_cmid2node.
  apply role_node_cmid2node in H1, H2, H4, H5.
  rewrite H5, H4, add_edge_cmid2node. congruence.
Qed.

Lemma add_reactions_cmid2node (rxn_dict : gmap string MineRecord) (rxn_ids : list string) :
  forall g g', add_reactions rxn_dict rxn_ids g = Ok g' -> cmid2node g' = cmid2node g.
Proof.
  induction rxn_ids as [|rxn_id rxn_ids IH]; simpl; intros g g'.
  - by intros [= <-].
  - destruct (rxn_dict !! rxn_id) as [rxn|]; [|discriminate].
    destruct (AddQuadReactionNode g rxn) as [g1|] eqn:Hg1; simpl; [|discriminate].
    intros ->%IH. by apply (AddQuadReactionNode_cmid2node g g1 rxn).
Qed.

(** C6: in every graph that [ConstructNetwork] produces, the [cmid2node]
    index is injective: two distinct compound ids never map to the same node
    number. *)
Theorem ConstructNetwork_index_injective (comp_dict rxn_dict : gmap string MineRecord)
    (start_comp_ids extra_kegg_ids : list string) (g : DiGraph) :
  ConstructNetwork comp_dict rxn_dict start_comp_ids extra_kegg_ids = Ok g ->
  forall (index : gmap string nat) (c_mid1 c_mid2 : string) (n : nat),
    cmid2node g = Some index ->
    index !! c_mid1 = Some n -> index !! c_mid2 = Some n -> c_mid1 = c_mid2.
Proof.
  unfold ConstructNetwork.
  destruct (add_compounds _ _ _ _) as [g1|] eqn:Hg1; simpl; [|discriminate].
  intros Hg index c_mid1 c_mid2 n Hindex H1 H2.
  apply add_compounds_index_inv in Hg1 as (_ & _ & Hinj);
    [|apply index_inv_empty].
  apply add_reactions_cmid2node in Hg.
  apply (Hinj c_mid1 c_mid2 n); rewrite <- Hg, Hindex; done.
Qed.

Lemma ConstructNetwork_index_injective_witness :
  exists g index,
    ConstructNetwork test_comp_dict test_rxn_dict ["C1"] [] = Ok g
    /\ cmid2node g = Some index
    /\ index !! "C3" = Some 3%nat
    /\ forall c_mid, index !! c_mid = Some 3%nat -> c_mid = "C3".
Proof.
  eexists _, _. split; [vm_compute; reflexivity|].
  split; [reflexivity|]. split; [vm_compute; reflexivity|].
  intros c_mid Hc.
  eapply (ConstructNetwork_index_injective test_comp_dict test_rxn_dict ["C1"] []).
  - vm_compute. reflexivity.
  - reflexivity.
  - exact Hc.
  - vm_compute. reflexivity.
Defined.

(** ** The fixtures of the graph tests *)

Example CheckConnection_test :
  CheckConnection check_graph 1 3 = Ok true
  /\ CheckConnection check_graph 5 6 = Ok true
  /\ CheckConnection check_graph 2 4 = Ok false.
Proof. repeat split; vm_compute; reflexivity. Qed.

Lemma CheckConnection_fidelity_witness :
  exists b,
    CheckConnection check_graph 1 3 = Ok b
    /\ (b = true <->
        exists rec l, (default ∅ (mine_data check_graph)) !! "C1" = Some rec
                      /\ relevant_list "rf" rec = Some l /\ "R1" ∈ l)
    /\ ((forall rec, (default ∅ (mine_data check_graph)) !! "C1" = Some rec ->
                     relevant_list "rf" rec = None) -> b = false).
Proof.
  eapply (CheckConnection_fidelity check_graph _ 1 3 _ _ "C1" "R1" "rf").
  - reflexivity.
  - vm_compute. reflexivity.
  - reflexivity.
  - reflexivity.
  - vm_compute. reflexivity.
  - reflexivity.
  - reflexivity.
  - apply elem_of_cons. by left.
Defined.

Lemma AddCompoundNode_start_witness :
  exists graph' attr,
    AddCompoundNode (mkGraph ∅ ∅ None None) phosphate test_sids = Ok graph'
    /\ node graph' !! 1%nat = Some attr
    /\ n_start attr = Some true.
Proof.
  destruct (AddCompoundNode_start (mkGraph ∅ ∅ None None)
              (mkGraph {[1%nat := comp_attr "X96ff2c653c25b4f3c6fab12b241ec78bff13a751" true]}
                 ∅ (Some {["X96ff2c653c25b4f3c6fab12b241ec78bff13a751" := 1%nat]}) None)
              phosphate test_sids
              "X96ff2c653c25b4f3c6fab12b241ec78bff13a751" eq_refl)
    as (attr & b & Hnode & _ & _ & Hstart & _).
  - vm_compute. reflexivity.
  - eexists _, _. split; [vm_compute; reflexivity|].
    split; vm_compute; reflexivity.
Defined.

Lemma quad_graph_built :
  add_compounds quad_comp_dict ∅ (sorted_keys quad_comp_dict)
    (mkGraph ∅ ∅ None (Some quad_mine_data)) = Ok quad_graph.
Proof. vm_compute. reflexivity. Qed.

Lemma quad_graph_index_inv : index_inv quad_graph.
Proof.
  eapply add_compounds_index_inv; [apply index_inv_empty|apply quad_graph_built].
Qed.

Example AddQuadReactionNode_test :
  (g1 <- AddQuadReactionNode quad_graph quad_rxn;;
   g2 <- AddQuadReactionNode g1 quad_rxn2;;
   Ok (size (edges g2), size (node g2)))
  = Ok (12%nat, 13%nat).
Proof. vm_compute. reflexivity. Qed.

Lemma AddQuadReactionNode_quad_witness :
  numbered quad_graph /\ index_resolves quad_graph
  /\ exists graph',
       AddQuadReactionNode quad_graph quad_rxn = Ok graph'
       /\ size (node graph') = 9%nat
       /\ node graph' !! 6%nat = Some (role_attr "rf" "R1" {[1%nat; 4%nat]})
       /\ (6%nat, 7%nat) ∈ edges graph' /\ (8%nat, 9%nat) ∈ edges graph'.
Proof.
  destruct quad_graph_index_inv as (Hnum & Hres & _).
  split; [exact Hnum|]. split; [exact Hres|].
  destruct (AddQuadReactionNode_quad quad_graph quad_rxn "R1" _ _ _ _
              eq_refl eq_refl eq_refl eq_refl eq_refl) as [Hquad _].
  destruct Hquad as (graph' & Hrun & Hnode & Hsize & Hrf & Hrr & _).
  - intros x Hx. rewrite !elem_of_app, !elem_of_cons, elem_of_nil in Hx.
    destruct Hx as [[->|[->|[]]]|[->|[->|[]]]]; vm_compute; eauto.
  - exact Hnum.
  - exact Hres.
  - exists graph'. split; [exact Hrun|]. split; [exact Hsize|].
    split; [|split; [exact Hrf|exact Hrr]].
    rewrite Hnode. vm_compute. reflexivity.
Defined.

(** Stated for every graph, the property fails where the node numbers have a
    gap: [len(graph.nodes()) + 1] is then a number in use, the [rf]
    node lands on the compound node 3, and three nodes are added. *)
Lemma AddQuadReactionNode_gap_counterexample :
  (forall x, x ∈ ["C2"; "C3"] -> is_Some (index_lookup (cmid2node gap_graph) x))
  /\ exists graph',
       AddQuadReactionNode gap_graph quad_rxn2 = Ok graph'
       /\ size (node gap_graph) = 2%nat
       /\ size (node graph') = 5%nat
       /\ node gap_graph !! 3%nat = Some (comp_attr "C3" false)
       /\ node graph' !! 3%nat
          = Some (mkAttr (Some "rf") (Some "R2") (Some false) (Some {[2%nat]})).
Proof.
  split.
  - intros x Hx. rewrite !elem_of_cons, elem_of_nil in Hx.
    destruct Hx as [->|[->|[]]]; vm_compute; eauto.
  - eexists. split; [vm_compute; reflexivity|].
    repeat split; vm_compute; reflexivity.
Qed.

(** ** KeggMineIntegration *)

Example re_match_ids :
  re_match_mine_id "X490c4e9c5d9c3b903bab41ff596eca62ed06130d" = true
  /\ re_match_mine_id "C00001" = false
  /\ re_match_kegg_id "C00001" = true
  /\ re_match_kegg_id "C683de2716dd472f4da0a144683d31a10e48a45fc" = false
  /\ re_match_kegg_id ("C00001" ++ String (ascii_of_nat 10) "") = true
  /\ re_match_kegg_id ("C0000" ++ String (ascii_of_nat 10) "") = false.
Proof. repeat split; reflexivity. Qed.

Example IsConnectedMineComp_test :
  let G := mkGraph ∅ ∅ None
             (Some (list_to_map [
                ("C1", net_comp "C1" (Some []) None);
                ("X2", net_comp "X2" None None);
                ("C3", net_comp "C3" (Some []) (Some []));
                ("C4", net_comp "C4" None (Some []));
                ("C5", net_comp "C5" None None)])) in
  (fun mid => IsConnectedMineComp mid G) <$> ["C1"; "X2"; "C3"; "C4"; "C5"]
  = [Ok true; Ok false; Ok true; Ok true; Ok false].
Proof. vm_compute. reflexivity. Qed.

(** The first loop on the graph of the test: the four MINE nodes are indexed
    under their KEGG ids. *)
Example index_mine_nodes_test :
  (indexed <- index_mine_nodes kegg_test_graph
                (elements (dom (node kegg_test_graph))) ∅ 0 0;;
   let '(kegg_to_mine, c_node_count, mc_node_count) := indexed in
   Ok ((fun k => elements <$> kegg_to_mine !! k)
         <$> ["C00001"; "C00002"; "C00003"; "C00004"; "C00005"],
       c_node_count, mc_node_count))
  = Ok ([Some ["X490c4e9c5d9c3b903bab41ff596eca62ed06130d"];
         Some ["C683de2716dd472f4da0a144683d31a10e48a45fc"];
         Some ["C069ca544492566919b8c9d20984e55b37a9f79a8"];
         Some ["C123097ef07e00abcd707e873bbd09783da730a38"];
         None],
        8, 4).
Proof. vm_compute. reflexivity. Qed.

(** The second loop raises as soon as the nodes it still has to visit hold a
    compound node. *)
Lemma transplant_raises (kegg_to_mine : gmap string (gset string)) (kc_node_count : Z)
    (nodes : list nat) :
  forall (network : DiGraph) (mine_ids : option (gset string)) (n : Z),
    (exists nd attr, nd ∈ nodes /\ node network !! nd = Some attr
                     /\ n_type attr = Some "c") ->
    exists e, transplant kegg_to_mine kc_node_count nodes network mine_ids n = Raise e.
Proof.
  induction nodes as [|x nodes IH]; intros network mine_ids n (nd & attr & Hin & Hnd & Hty).
  - by apply elem_of_nil in Hin.
  - simpl. unfold transplant_node, node_attr.
    destruct (node network !! x) as [xattr|] eqn:Hx; [|simpl; eauto].
    destruct (n_type xattr) as [ty|] eqn:Hxty; [|simpl; eauto].
    cbn [bind]. destruct (String.eqb_spec ty "c") as [->|Hne].
    + destruct (n_mid xattr); simpl; eauto.
    + cbn [bind]. destruct (kc_node_count =? 0); [eauto|].
      apply IH. exists nd, attr. split; [|done].
      apply elem_of_cons in Hin as [->|Hin]; [|done]. congruence.
Qed.

(** On every graph that holds a compound node the pass ends in an
    exception. *)
Lemma KeggMineIntegration_raises_on_compound (network : DiGraph) (nd : nat)
    (attr : NodeAttr) :
  node network !! nd = Some attr -> n_type attr = Some "c" ->
  exists e, KeggMineIntegration network = Raise e.
Proof.
  intros Hnd Hty. unfold KeggMineIntegration.
  destruct (index_mine_nodes _ _ _ _ _) as [[[kegg_to_mine c_count] mc_count]|e];
    [|simpl; eauto].
  cbn [bind]. apply transplant_raises. exists nd, attr. split; [|done].
  apply elem_of_elements, elem_of_dom. eauto.
Qed.

(** C3, where the code departs from it: on the graph of
    [test_KeggMineIntegration] the pass does not complete; the second loop
    reads the name [compound], which is not bound, and raises [NameError]
    before any node is examined for removal. *)
Theorem KeggMineIntegration_test_graph_raises :
  KeggMineIntegration kegg_test_graph = Raise NameError.
Proof. vm_compute. reflexivity. Qed.

(** ** GetRawNetwork: the loops *)

Section ExpanderFacts.

Variable GetComp : string -> option MineRecord.
Variable GetRxn : string -> option MineRecord.
Variable completion : list string -> list string.
Variable set_iter : gset string -> list string.

(** A set is iterated once over each of its elements, and the worker pool
    delivers one result for each id of the batch. *)
Hypothesis set_iter_perm : forall s, set_iter s ≡ₚ elements s.
Hypothesis completion_perm : forall l, completion l ≡ₚ l.

Variable comp_limit C_limit : Z.

Lemma elem_of_set_iter (s : gset string) (x : string) : x ∈ set_iter s <-> x ∈ s.
Proof. by rewrite set_iter_perm, elem_of_elements. Qed.

Lemma add_start_comps_spec (fetched : list (option MineRecord)) :
  forall d n,
  exists d' n',
    add_start_comps C_limit fetched d n = Ok (d', n')
    /\ (forall k c, d' !! k = Some c ->
          d !! k = Some c
          \/ (Some c ∈ fetched /\ _id c = Some k /\ exceeds_limit c C_limit = false))
    /\ Z.of_nat (size d') - n' <= Z.of_nat (size d) - n
    /\ n <= n' <= n + Z.of_nat (length fetched).
Proof.
  induction fetched as [|[comp|] fetched IH]; intros d n.
  - exists d, n. simpl. repeat split; auto; lia.
  - cbn [add_start_comps].
    assert (Hskip : exists d' n',
      add_start_comps C_limit fetched d n = Ok (d', n')
      /\ (forall k c, d' !! k = Some c ->
            d !! k = Some c
            \/ (Some c ∈ Some comp :: fetched /\ _id c = Some k
                /\ exceeds_limit c C_limit = false))
      /\ Z.of_nat (size d') - n' <= Z.of_nat (size d) - n
      /\ n <= n' <= n + Z.of_nat (length (Some comp :: fetched))).
    { destruct (IH d n) as (d' & n' & -> & Hfrom & Hsize & Hn).
      exists d', n'. split; [done|]. split; [|simpl length; lia].
      intros k c Hk. destruct (Hfrom k c Hk) as [?|(? & ? & ?)]; [by left|right].
      split; [by apply elem_of_cons; right|done]. }
    destruct (_id comp) as [comp_id|] eqn:Hid; [|exact Hskip].
    rewrite LimitCarbon_eq. cbn [bind].
    destruct (exceeds_limit comp C_limit) eqn:Hover; [exact Hskip|].
    cbn [negb].
    destruct (IH (<[comp_id := comp]> d) (n + 1)) as (d' & n' & -> & Hfrom & Hsize & Hn).
    exists d', n'. split; [done|]. split; [|split].
    + intros k c Hk. destruct (Hfrom k c Hk) as [Hins|(? & ? & ?)].
      * destruct (decide (comp_id = k)) as [<-|Hne].
        -- rewrite lookup_insert_eq in Hins. injection Hins as <-. right.
           split; [by apply elem_of_cons; left|done].
        -- rewrite lookup_insert_ne in Hins by done. by left.
      * right. split; [by apply elem_of_cons; right|done].
    + pose proof (map_size_insert comp_id comp d) as Hs.
      destruct (d !! comp_id); unfold id in Hs; lia.
    + simpl length. lia.
  - cbn [add_start_comps].
    destruct (IH d n) as (d' & n' & -> & Hfrom & Hsize & Hn).
    exists d', n'. split; [done|]. split; [|simpl length; lia].
    intros k c Hk. destruct (Hfrom k c Hk) as [?|(? & ? & ?)]; [by left|right].
    split; [by apply elem_of_cons; right|done].
Qed.

Lemma collect_rxn_ids_spec (st : Expansion) (unextended : list string) :
  forall wanted,
    (forall x, x ∈ unextended -> is_Some (comp_dict st !! x)) ->
    exists wanted',
      collect_rxn_ids st unextended wanted = Ok wanted'
      /\ forall x, x ∈ wanted' -> x ∈ wanted \/ rxn_dict st !! x = None.
Proof.
  assert (Hw : forall l w x,
            x ∈ wanted_rxns (rxn_dict st) (rxn_exceeding_C_limit st) l w ->
            x ∈ w \/ rxn_dict st !! x = None).
  { induction l as [|y l IH]; intros w x; simpl; [auto|].
    case_bool_decide as Hy; [|apply IH].
    intros [Hx|Hx]%IH; [|by right].
    apply elem_of_union in Hx as [->%elem_of_singleton|Hx]; [|by left].
    right. destruct Hy as [Hy _]. by apply not_elem_of_dom in Hy. }
  induction unextended as [|comp_id unextended IH]; intros wanted Hall; simpl.
  - eauto.
  - destruct (Hall comp_id) as [comp ->]; [by left|].
    destruct (IH (wanted_rxns (rxn_dict st) (rxn_exceeding_C_limit st)
                    (ExtractCompReactionIds comp) wanted))
      as (wanted' & -> & Hfrom).
    { intros x Hx. apply Hall. by right. }
    exists wanted'. split; [done|].
    intros x [Hx|Hx]%Hfrom; [|by right]. by apply Hw in Hx.
Qed.

Lemma expand_cache_spec (new_comps : list (option MineRecord)) :
  forall cache k c,
    expand_cache new_comps cache !! k = Some c ->
    cache !! k = Some c \/ (Some c ∈ new_comps /\ _id c = Some k).
Proof.
  induction new_comps as [|[comp|] new_comps IH]; intros cache k c; simpl; [auto| |].
  - destruct (_id comp) as [comp_id|] eqn:Hid.
    + intros [Hins|[? ?]]%IH; [|right; split; [by apply elem_of_cons; right|done]].
      destruct (decide (comp_id = k)) as [<-|Hne].
      * rewrite lookup_insert_eq in Hins. injection Hins as <-. right.
        split; [by apply elem_of_cons; left|done].
      * rewrite lookup_insert_ne in Hins by done. by left.
    + intros [?|[? ?]]%IH; [by left|right; split; [by apply elem_of_cons; right|done]].
  - intros [?|[? ?]]%IH; [by left|right; split; [by apply elem_of_cons; right|done]].
Qed.

(** The scan of the compounds of one reaction changes the two sets of marks
    only; the ids it gathers are cached compounds that pass the limit, the
    compound it may mark is a cached, unstored compound that exceeds it. *)
Lemma scan_rxn_comps_spec (rxn_id : string) (rxn_comp_ids : list string) (st : Expansion) :
  forall new,
  exists st' new',
    scan_rxn_comps C_limit rxn_id rxn_comp_ids st new = Ok (st', new')
    /\ comp_dict st' = comp_dict st /\ rxn_dict st' = rxn_dict st
    /\ comps st' = comps st /\ extended_comp_ids st' = extended_comp_ids st
    /\ comp_cache st' = comp_cache st
    /\ (forall x, x ∈ new' ->
          x ∈ new \/ exists c, comp_cache st !! x = Some c
                               /\ exceeds_limit c C_limit = false)
    /\ (forall x, x ∈ comp_exceeding_C_limit st' ->
          x ∈ comp_exceeding_C_limit st
          \/ (comp_dict st !! x = None
              /\ exists c, comp_cache st !! x = Some c
                           /\ exceeds_limit c C_limit = true))
    /\ (forall x, x ∈ comp_exceeding_C_limit st -> x ∈ comp_exceeding_C_limit st')
    /\ (forall r, r ∈ rxn_exceeding_C_limit st' ->
          r ∈ rxn_exceeding_C_limit st \/ r = rxn_id)
    /\ (forall r, r ∈ rxn_exceeding_C_limit st -> r ∈ rxn_exceeding_C_limit st').
Proof using C_limit.
  induction rxn_comp_ids as [|x rxn_comp_ids IH]; intros new; simpl.
  - exists st, new. repeat split; auto.
  - assert (Hskip : forall new0,
      (forall y, y ∈ new0 ->
         y ∈ new \/ exists c, comp_cache st !! y = Some c
                              /\ exceeds_limit c C_limit = false) ->
      exists st' new',
        scan_rxn_comps C_limit rxn_id rxn_comp_ids st new0 = Ok (st', new')
        /\ comp_dict st' = comp_dict st /\ rxn_dict st' = rxn_dict st
        /\ comps st' = comps st /\ extended_comp_ids st' = extended_comp_ids st
        /\ comp_cache st' = comp_cache st
        /\ (forall x, x ∈ new' ->
              x ∈ new \/ exists c, comp_cache st !! x = Some c
                                   /\ exceeds_limit c C_limit = false)
        /\ (forall x, x ∈ comp_exceeding_C_limit st' ->
              x ∈ comp_exceeding_C_limit st
              \/ (comp_dict st !! x = None
                  /\ exists c, comp_cache st !! x = Some c
                               /\ exceeds_limit c C_limit = true))
        /\ (forall x, x ∈ comp_exceeding_C_limit st -> x ∈ comp_exceeding_C_limit st')
        /\ (forall r, r ∈ rxn_exceeding_C_limit st' ->
              r ∈ rxn_exceeding_C_limit st \/ r = rxn_id)
        /\ (forall r, r ∈ rxn_exceeding_C_limit st -> r ∈ rxn_exceeding_C_limit st')).
    { intros new0 Hnew0.
      destruct (IH new0) as (st' & new' & -> & Hd & Hr & Hc & He & Hca & Hn & Hrest).
      exists st', new'. split; [done|]. do 5 (split; [done|]).
      split; [|exact Hrest].
      intros y Hy. destruct (Hn y Hy) as [Hy0|?]; [by apply Hnew0|by right]. }
    case_bool_decide as Hx; [|apply Hskip; auto].
    destruct (comp_cache st !! x) as [rxn_comp|] eqn:Hcache; [|apply Hskip; auto].
    rewrite LimitCarbon_eq. cbn [bind].
    destruct (exceeds_limit rxn_comp C_limit) eqn:Hover.
    + eexists _, new. split; [reflexivity|]. simpl.
      repeat split; auto.
      * intros y [->%elem_of_singleton|Hy]%elem_of_union; [right|by left].
        split; [by apply not_elem_of_dom|eauto].
      * intros y Hy. apply elem_of_union. by right.
      * intros r [->%elem_of_singleton|Hr]%elem_of_union; auto.
      * intros r Hr. apply elem_of_union. by right.
    + apply Hskip.
      intros y [->%elem_of_singleton|Hy]%elem_of_union; [right; eauto|by left].
Qed.

(** The harvest of the new compounds of one reaction changes the compound
    dictionary and the counter only. *)
Lemma harvest_spec (new_ids : list string) :
  forall st,
    (forall x, x ∈ new_ids -> is_Some (comp_cache st !! x)) ->
    exists fl,
      harvest comp_limit new_ids st = Ok fl
      /\ rxn_dict (flow_state fl) = rxn_dict st
      /\ extended_comp_ids (flow_state fl) = extended_comp_ids st
      /\ rxn_exceeding_C_limit (flow_state fl) = rxn_exceeding_C_limit st
      /\ comp_exceeding_C_limit (flow_state fl) = comp_exceeding_C_limit st
      /\ comp_cache (flow_state fl) = comp_cache st
      /\ (forall k c, comp_dict (flow_state fl) !! k = Some c ->
            comp_dict st !! k = Some c
            \/ (k ∈ new_ids /\ comp_cache st !! k = Some c))
      /\ Z.of_nat (size (comp_dict (flow_state fl))) - comps (flow_state fl)
         <= Z.of_nat (size (comp_dict st)) - comps st
      /\ match fl with
         | Next st' => comps st' = comps st \/ comps st' < comp_limit
         | Return st' => comps st' <= Z.max comp_limit (comps st + 1)
         end.
Proof.
  induction new_ids as [|x new_ids IH]; intros st Hall; simpl.
  - exists (Next st). simpl. repeat split; auto; lia.
  - destruct (Hall x) as [comp Hcomp]; [by left|]. rewrite Hcomp.
    set (st' := mkExpansion _ _ _ _ _ _ _).
    assert (Hsize : Z.of_nat (size (comp_dict st')) - comps st'
                    <= Z.of_nat (size (comp_dict st)) - comps st).
    { subst st'. simpl. pose proof (map_size_insert x comp (comp_dict st)) as Hs.
      destruct (comp_dict st !! x); unfold id in Hs; lia. }
    assert (Hfrom : forall k c, comp_dict st' !! k = Some c ->
              comp_dict st !! k = Some c
              \/ (k ∈ x :: new_ids /\ comp_cache st !! k = Some c)).
    { subst st'. simpl. intros k c Hk.
      destruct (decide (x = k)) as [<-|Hne].
      - rewrite lookup_insert_eq in Hk. injection Hk as <-. right.
        split; [by apply elem_of_cons; left|done].
      - rewrite lookup_insert_ne in Hk by done. by left. }
    case_bool_decide as Hlimit.
    + exists (Return st'). split; [done|]. cbn [flow_state].
      repeat split; auto. subst st'. simpl. lia.
    + destruct (IH st') as (fl & -> & Hr & He & Hre & Hce & Hca & Hd & Hs & Hfl).
      { intros y Hy. subst st'. simpl. apply Hall. by right. }
      exists fl. split; [done|].
      split; [by rewrite Hr|]. split; [by rewrite He|]. split; [by rewrite Hre|].
      split; [by rewrite Hce|]. split; [by rewrite Hca|]. split; [|split].
      * intros k c Hk. destruct (Hd k c Hk) as [Hk'|[Hin Hk']].
        -- by apply Hfrom.
        -- right. split; [by apply elem_of_cons; right|done].
      * lia.
      * destruct fl as [st''|st'']; subst st'; simpl in *; lia.
Qed.

(** A rule for the loop over the new reactions: [P] holds before each turn
    for the reactions still to come, [Q] holds when the loop returns from the
    function at the compound limit. *)
Lemma explore_rxns_rule (P : list (option MineRecord) -> Expansion -> Prop)
    (Q : Expansion -> Prop) :
  (forall rest st, P (None :: rest) st -> P rest st) ->
  (forall rxn rest st, _id rxn = None -> P (Some rxn :: rest) st -> P rest st) ->
  (forall rxn rxn_id rest st,
     _id rxn = Some rxn_id -> P (Some rxn :: rest) st ->
     exists st1 new,
       scan_rxn_comps C_limit rxn_id (ExtractReactionCompIds rxn) st ∅ = Ok (st1, new)
       /\ (rxn_id ∈ rxn_exceeding_C_limit st1 -> P rest st1)
       /\ (rxn_id ∉ rxn_exceeding_C_limit st1 ->
           exists fl,
             harvest comp_limit (set_iter new)
               (mkExpansion (comp_dict st1) (<[rxn_id := rxn]> (rxn_dict st1))
                  (comps st1) (extended_comp_ids st1) (rxn_exceeding_C_limit st1)
                  (comp_exceeding_C_limit st1) (comp_cache st1)) = Ok fl
             /\ match fl with
                | Next st3 => P rest st3
                | Return st3 => Q st3
                end)) ->
  forall new_rxns st,
    P new_rxns st ->
    exists fl,
      explore_rxns set_iter comp_limit C_limit new_rxns st = Ok fl
      /\ match fl with
         | Next st' => P [] st'
         | Return st' => Q st'
         end.
Proof.
  intros Hnone Hnoid Hturn.
  induction new_rxns as [|[rxn|] rest IH]; intros st HP; simpl.
  - exists (Next st). auto.
  - destruct (_id rxn) as [rxn_id|] eqn:Hid; [|by apply IH, (Hnoid rxn)].
    destruct (Hturn rxn rxn_id rest st Hid HP) as (st1 & new & -> & Hmarked & Hadmit).
    cbn [bind]. case_bool_decide as Hin; [by apply IH, Hmarked|].
    destruct (Hadmit Hin) as (fl & -> & Hfl). cbn [bind].
    destruct fl as [st3|st3]; [by apply IH|].
    exists (Return st3). auto.
  - by apply IH, Hnone.
Qed.

(** The loop over the new reactions keeps the stored compounds within the
    carbon limit and the counter within [bound]. *)
Lemma explore_rxns_ok (bound : Z) (new_rxns : list (option MineRecord)) (st : Expansion) :
  comp_limit <= bound ->
  expansion_ok C_limit (bound - 1) st ->
  exists fl,
    explore_rxns set_iter comp_limit C_limit new_rxns st = Ok fl
    /\ match fl with
       | Next st' => expansion_ok C_limit (bound - 1) st'
       | Return st' => expansion_ok C_limit bound st'
       end.
Proof.
  intros Hbound.
  apply (explore_rxns_rule (fun _ st => expansion_ok C_limit (bound - 1) st)
           (fun st => expansion_ok C_limit bound st)); auto.
  clear st. intros rxn rxn_id rest st Hid (Hvals & Hsize & Hcomps).
  destruct (scan_rxn_comps_spec rxn_id (ExtractReactionCompIds rxn) st ∅)
    as (st1 & new & Hscan & Hd & Hr & Hc & He & Hca & Hnew & _).
  exists st1, new. split; [exact Hscan|]. split.
  - intros _. unfold expansion_ok. by rewrite Hd, Hc.
  - intros _.
    destruct (harvest_spec (set_iter new)
                (mkExpansion (comp_dict st1) (<[rxn_id := rxn]> (rxn_dict st1))
                   (comps st1) (extended_comp_ids st1) (rxn_exceeding_C_limit st1)
                   (comp_exceeding_C_limit st1) (comp_cache st1)))
      as (fl & Hfl & _ & _ & _ & _ & _ & Hfrom & Hs & Hcount).
    { intros x Hx%elem_of_set_iter. simpl. rewrite Hca.
      destruct (Hnew x Hx) as [Hx'|(c & -> & _)]; [|eauto].
      by apply not_elem_of_empty in Hx'. }
    exists fl. split; [exact Hfl|]. simpl in Hfrom, Hs, Hcount.
    rewrite Hd, ?Hc, ?Hca in *.
    assert (Hvals' : forall k c, comp_dict (flow_state fl) !! k = Some c ->
                       exceeds_limit c C_limit = false).
    { intros k c Hk. destruct (Hfrom k c Hk) as [Hold|[Hin Hcache]]; [by eapply Hvals|].
      apply elem_of_set_iter in Hin.
      destruct (Hnew k Hin) as [Hk'|(c' & Hc' & Hpass)];
        [by apply not_elem_of_empty in Hk'|]. congruence. }
    destruct fl as [st3|st3]; simpl in *; (split; [exact Hvals'|]); lia.
Qed.

Lemma expansion_step_ok (bound : Z) (st : Expansion) :
  comp_limit <= bound ->
  expansion_ok C_limit (bound - 1) st ->
  exists fl,
    expansion_step GetComp GetRxn completion set_iter comp_limit C_limit st = Ok fl
    /\ match fl with
       | Next st' => expansion_ok C_limit (bound - 1) st'
       | Return st' => expansion_ok C_limit bound st'
       end.
Proof.
  intros Hbound Hok. unfold expansion_step.
  destruct (collect_rxn_ids_spec st
              (set_iter (dom (comp_dict st) ∖ extended_comp_ids st)) ∅)
    as (wanted & -> & _).
  { intros x [Hx _]%elem_of_set_iter%elem_of_difference. by apply elem_of_dom. }
  cbn [bind].
  match goal with
  | |- context [explore_rxns _ _ _ ?rxns ?st1] =>
      destruct (explore_rxns_ok bound rxns st1 Hbound Hok) as (fl & -> & Hfl)
  end.
  cbn [bind]. destruct fl as [st2|st2]; eexists; (split; [reflexivity|exact Hfl]).
Qed.

Lemma expansion_loop_ok (bound : Z) (turns : nat) :
  comp_limit <= bound ->
  forall st,
    expansion_ok C_limit (bound - 1) st ->
    exists st',
      expansion_loop GetComp GetRxn completion set_iter turns comp_limit C_limit st
      = Ok st'
      /\ expansion_ok C_limit bound st'.
Proof.
  intros Hbound. induction turns as [|turns IH]; intros st Hok; simpl.
  - exists st. split; [done|]. destruct Hok as (? & ? & ?). repeat split; auto; lia.
  - destruct (expansion_step_ok bound st Hbound Hok) as (fl & -> & Hfl). cbn [bind].
    destruct fl as [st'|st']; [by apply IH|eauto].
Qed.

Lemma length_ThreadedGetComps (ids : list string) :
  length (ThreadedGetComps GetComp completion ids) = length ids.
Proof. unfold ThreadedGetComps. by rewrite length_fmap, completion_perm. Qed.

(** The start of the expansion stores seeds that pass the carbon limit, and
    counts at most one compound for each seed id. *)
Lemma start_expansion_ok (comp_id_list : list string) :
  exists st,
    start_expansion GetComp completion C_limit comp_id_list = Ok st
    /\ expansion_ok C_limit (Z.of_nat (length comp_id_list)) st
    /\ rxn_dict st = ∅ /\ comp_cache st = ∅
    /\ rxn_exceeding_C_limit st = ∅ /\ comp_exceeding_C_limit st = ∅
    /\ forall k c, comp_dict st !! k = Some c ->
         Some c ∈ ThreadedGetComps GetComp completion comp_id_list /\ _id c = Some k.
Proof.
  unfold start_expansion.
  destruct (add_start_comps_spec (ThreadedGetComps GetComp completion comp_id_list) ∅ 0)
    as (d & n & -> & Hfrom & Hsize & Hn).
  cbn [bind]. eexists. split; [reflexivity|]. simpl.
  rewrite map_size_empty, length_ThreadedGetComps in *.
  assert (Hfrom' : forall k c, d !! k = Some c ->
            Some c ∈ ThreadedGetComps GetComp completion comp_id_list
            /\ _id c = Some k /\ exceeds_limit c C_limit = false).
  { intros k c Hk. destruct (Hfrom k c Hk) as [Hk'|?]; [|done].
    by rewrite lookup_empty in Hk'. }
  split; [|split; [done|split; [done|split; [done|split; [done|]]]]].
  - split; [|simpl; lia]. intros k c Hk. by apply Hfrom' in Hk as (_ & _ & ?).
  - intros k c Hk. apply Hfrom' in Hk as (? & ? & _). done.
Qed.

(** The whole run: it returns, with every stored compound within the carbon
    limit and the counter within the larger of the compound limit and the
    number of seed ids plus one. *)
Lemma GetRawNetwork_run_ok (comp_id_list : list string) (step_limit : Z) :
  exists st,
    GetRawNetwork_run GetComp GetRxn completion set_iter comp_id_list
      step_limit comp_limit C_limit = Ok st
    /\ expansion_ok C_limit
         (Z.max comp_limit (Z.of_nat (length comp_id_list) + 1)) st.
Proof.
  unfold GetRawNetwork_run.
  destruct (start_expansion_ok comp_id_list) as (st0 & -> & Hok & _). cbn [bind].
  apply expansion_loop_ok; [lia|].
  destruct Hok as (? & ? & ?). repeat split; auto; lia.
Qed.

(** *** The repository and the marks *)

Lemma elem_of_fetched (Get : string -> option MineRecord) (ids : list string)
    (r : MineRecord) :
  Some r ∈ Get <$> ids -> exists k, k ∈ ids /\ Get k = Some r.
Proof. intros (k & Hk & Hin)%list_elem_of_fmap. eauto. Qed.

Lemma rxn_ids_of_fetched (Get : string -> option MineRecord) (ids : list string) :
  answers_own_id Get -> NoDup ids ->
  NoDup (rxn_ids_of (Get <$> ids))
  /\ forall r, r ∈ rxn_ids_of (Get <$> ids) -> r ∈ ids.
Proof.
  intros Hown. induction ids as [|k ids IH]; intros Hnd; simpl.
  - split; [constructor|]. intros r Hr. by apply elem_of_nil in Hr.
  - apply NoDup_cons in Hnd as [Hk Hnd]. destruct (IH Hnd) as [IHnd IHin].
    unfold rxn_ids_of in *. simpl.
    destruct (Get k) as [rxn|] eqn:Hget; simpl;
      [destruct (_id rxn) as [rid|] eqn:Hid; simpl|].
    + assert (rid = k) as -> by (eapply Hown; eauto). split.
      * apply NoDup_cons. split; [|done]. intros Hin. by apply Hk, IHin.
      * intros r [->|Hr]%elem_of_cons; [by left|right; by apply IHin].
    + split; [done|]. intros r Hr. right. by apply IHin.
    + split; [done|]. intros r Hr. right. by apply IHin.
Qed.

Section Repository.

Hypothesis GetComp_own_id : answers_own_id GetComp.

Lemma explore_rxns_comps (new_rxns : list (option MineRecord)) (st : Expansion) :
  comps_from_repository GetComp C_limit st ->
  exists fl,
    explore_rxns set_iter comp_limit C_limit new_rxns st = Ok fl
    /\ comps_from_repository GetComp C_limit (flow_state fl).
Proof.
  intros Hst.
  destruct (explore_rxns_rule
              (fun _ st => comps_from_repository GetComp C_limit st)
              (fun st => comps_from_repository GetComp C_limit st))
    with (new_rxns := new_rxns) (st := st) as (fl & Hfl & HP); auto.
  2:{ exists fl. split; [done|]. by destruct fl. }
  clear st Hst. intros rxn rxn_id rest st Hid (Hdict & Hcache & Hmarks).
  destruct (scan_rxn_comps_spec rxn_id (ExtractReactionCompIds rxn) st ∅)
    as (st1 & new & Hscan & Hd & Hr & Hc & He & Hca & Hnew & Hcm & _).
  assert (Hst1 : comps_from_repository GetComp C_limit st1).
  { unfold comps_from_repository. rewrite Hd, Hca. split; [done|]. split; [done|].
    intros k [Hk|(_ & c & Hkc & Hover)]%Hcm; [by apply Hmarks|].
    exists c. split; [by apply Hcache|done]. }
  exists st1, new. split; [exact Hscan|]. split; [done|].
  intros _.
  destruct (harvest_spec (set_iter new)
              (mkExpansion (comp_dict st1) (<[rxn_id := rxn]> (rxn_dict st1))
                 (comps st1) (extended_comp_ids st1) (rxn_exceeding_C_limit st1)
                 (comp_exceeding_C_limit st1) (comp_cache st1)))
    as (fl & Hfl & _ & _ & _ & Hce & Hca' & Hfrom & _).
  { intros x Hx%elem_of_set_iter. simpl. rewrite Hca.
    destruct (Hnew x Hx) as [Hx'|(c & -> & _)]; [|eauto].
    by apply not_elem_of_empty in Hx'. }
  exists fl. split; [exact Hfl|]. simpl in Hce, Hca', Hfrom.
  destruct Hst1 as (Hdict1 & Hcache1 & Hmarks1).
  assert (comps_from_repository GetComp C_limit (flow_state fl)).
  { unfold comps_from_repository. rewrite Hce, Hca'. split; [|done].
    intros k c [Hk|[_ Hk]]%Hfrom; [by apply Hdict1|by apply Hcache1]. }
  by destruct fl.
Qed.

Lemma expansion_step_comps (st : Expansion) (fl : Flow) :
  comps_from_repository GetComp C_limit st ->
  expansion_step GetComp GetRxn completion set_iter comp_limit C_limit st = Ok fl ->
  comps_from_repository GetComp C_limit (flow_state fl).
Proof.
  intros (Hdict & Hcache & Hmarks). unfold expansion_step.
  destruct (collect_rxn_ids _ _ _) as [wanted|]; cbn [bind]; [|discriminate].
  match goal with
  | |- context [explore_rxns _ _ _ ?rxns ?st1] =>
      destruct (explore_rxns_comps rxns st1) as (fl' & -> & Hfl')
  end.
  { split; [done|]. split; [|done]. simpl. intros k c [Hk|[Hin Hid]]%expand_cache_spec.
    - by apply Hcache.
    - apply elem_of_fetched in Hin as (k0 & _ & Hget).
      by rewrite (GetComp_own_id k0 c k Hget Hid). }
  cbn [bind]. destruct fl' as [st2|st2]; intros [= <-]; exact Hfl'.
Qed.

Lemma expansion_loop_comps (turns : nat) :
  forall st st',
    comps_from_repository GetComp C_limit st ->
    expansion_loop GetComp GetRxn completion set_iter turns comp_limit C_limit st
    = Ok st' ->
    comps_from_repository GetComp C_limit st'.
Proof.
  induction turns as [|turns IH]; intros st st' Hst; simpl.
  - by intros [= <-].
  - destruct (expansion_step _ _ _ _ _ _ _) as [fl|] eqn:Hstep; cbn [bind];
      [|discriminate].
    apply expansion_step_comps in Hstep; [|done].
    destruct fl as [st1|st1]; [by apply IH|by intros [= <-]].
Qed.

Lemma GetRawNetwork_run_comps (comp_id_list : list string) (step_limit : Z)
    (st : Expansion) :
  GetRawNetwork_run GetComp GetRxn completion set_iter comp_id_list
    step_limit comp_limit C_limit = Ok st ->
  comps_from_repository GetComp C_limit st.
Proof.
  unfold GetRawNetwork_run.
  destruct (start_expansion_ok comp_id_list)
    as (st0 & -> & _ & _ & Hcache & _ & Hmarks & Hseeds).
  cbn [bind]. apply expansion_loop_comps. split; [|split].
  - intros k c [Hin Hid]%Hseeds.
    apply elem_of_fetched in Hin as (k0 & _ & Hget).
    by rewrite (GetComp_own_id k0 c k Hget Hid).
  - intros k c. by rewrite Hcache, lookup_empty.
  - intros k. rewrite Hmarks. by intros ?%not_elem_of_empty.
Qed.

Hypothesis GetRxn_own_id : answers_own_id GetRxn.

Lemma explore_rxns_marks (new_rxns : list (option MineRecord)) (st : Expansion) :
  rxn_marks_ok new_rxns st ->
  exists fl,
    explore_rxns set_iter comp_limit C_limit new_rxns st = Ok fl
    /\ rxn_marks_ok [] (flow_state fl).
Proof.
  intros Hst.
  destruct (explore_rxns_rule rxn_marks_ok (rxn_marks_ok []))
    with (new_rxns := new_rxns) (st := st) as (fl & Hfl & HP); auto.
  3:{ exists fl. split; [done|]. by destruct fl. }
  { clear. intros rxn rest st Hid (? & Hnd & Hfresh).
    unfold rxn_marks_ok, rxn_ids_of in *. simpl in *. rewrite Hid in *. done. }
  clear st Hst. intros rxn rxn_id rest st Hid (Hmarks & Hnd & Hfresh).
  assert (Hids : rxn_ids_of (Some rxn :: rest) = rxn_id :: rxn_ids_of rest).
  { unfold rxn_ids_of. simpl. by rewrite Hid. }
  rewrite Hids in Hnd, Hfresh. apply NoDup_cons in Hnd as [Hhead Hnd].
  destruct (scan_rxn_comps_spec rxn_id (ExtractReactionCompIds rxn) st ∅)
    as (st1 & new & Hscan & Hd & Hr & Hc & He & Hca & Hnew & _ & _ & Hrm & _).
  assert (Hmarks1 : forall k, k ∈ rxn_exceeding_C_limit st1 -> rxn_dict st1 !! k = None).
  { intros k [Hk| ->]%Hrm; rewrite Hr; [by apply Hmarks|].
    apply Hfresh. by left. }
  exists st1, new. split; [exact Hscan|]. split.
  - intros _. split; [done|]. split; [done|].
    intros r Hin. rewrite Hr. apply Hfresh. by right.
  - intros Hnot.
    destruct (harvest_spec (set_iter new)
                (mkExpansion (comp_dict st1) (<[rxn_id := rxn]> (rxn_dict st1))
                   (comps st1) (extended_comp_ids st1) (rxn_exceeding_C_limit st1)
                   (comp_exceeding_C_limit st1) (comp_cache st1)))
      as (fl & Hfl & Hr' & _ & Hre & _).
    { intros x Hx%elem_of_set_iter. simpl. rewrite Hca.
      destruct (Hnew x Hx) as [Hx'|(c & -> & _)]; [|eauto].
      by apply not_elem_of_empty in Hx'. }
    exists fl. split; [exact Hfl|]. simpl in Hr', Hre.
    assert (Hmarks' : forall k, k ∈ rxn_exceeding_C_limit (flow_state fl) ->
                        rxn_dict (flow_state fl) !! k = None).
    { intros k. rewrite Hre, Hr'. intros Hk.
      rewrite lookup_insert_ne; [by apply Hmarks1|]. by intros <-. }
    destruct fl as [st3|st3]; simpl in *.
    + split; [done|]. split; [done|]. intros r Hin. rewrite Hr'.
      rewrite lookup_insert_ne; [rewrite Hr; apply Hfresh; by right|].
      by intros <-.
    + split; [done|]. split; [constructor|]. intros r Hin.
      by apply elem_of_nil in Hin.
Qed.

Lemma expansion_step_marks (st : Expansion) (fl : Flow) :
  rxn_marks_ok [] st ->
  expansion_step GetComp GetRxn completion set_iter comp_limit C_limit st = Ok fl ->
  rxn_marks_ok [] (flow_state fl).
Proof.
  intros (Hmarks & _). unfold expansion_step.
  destruct (collect_rxn_ids _ _ _) as [wanted|] eqn:Hwanted; cbn [bind];
    [|discriminate].
  match goal with
  | |- context [explore_rxns _ _ _ ?rxns ?st1] =>
      destruct (explore_rxns_marks rxns st1) as (fl' & -> & Hfl')
  end.
  { assert (Hfresh : forall x, x ∈ wanted -> rxn_dict st !! x = None).
    { destruct (collect_rxn_ids_spec st
                  (set_iter (dom (comp_dict st) ∖ extended_comp_ids st)) ∅)
        as (wanted' & Hw & Hfrom).
      { intros x [Hx _]%elem_of_set_iter%elem_of_difference. by apply elem_of_dom. }
      rewrite Hwanted in Hw. injection Hw as <-.
      intros x [Hx|Hx]%Hfrom; [by apply not_elem_of_empty in Hx|done]. }
    destruct (rxn_ids_of_fetched GetRxn (completion (set_iter wanted)))
      as [Hnd Hin]; [done| |].
    { rewrite completion_perm, set_iter_perm. apply NoDup_elements. }
    split; [done|]. split; [exact Hnd|]. simpl.
    intros r Hr%Hin. apply Hfresh.
    rewrite completion_perm in Hr. by apply elem_of_set_iter in Hr. }
  cbn [bind]. destruct fl' as [st2|st2]; intros [= <-]; exact Hfl'.
Qed.

Lemma expansion_loop_marks (turns : nat) :
  forall st st',
    rxn_marks_ok [] st ->
    expansion_loop GetComp GetRxn completion set_iter turns comp_limit C_limit st
    = Ok st' ->
    rxn_marks_ok [] st'.
Proof.
  induction turns as [|turns IH]; intros st st' Hst; simpl.
  - by intros [= <-].
  - destruct (expansion_step _ _ _ _ _ _ _) as [fl|] eqn:Hstep; cbn [bind];
      [|discriminate].
    apply expansion_step_marks in Hstep; [|done].
    destruct fl as [st1|st1]; [by apply IH|by intros [= <-]].
Qed.

Lemma GetRawNetwork_run_marks (comp_id_list : list string) (step_limit : Z)
    (st : Expansion) :
  GetRawNetwork_run GetComp GetRxn completion set_iter comp_id_list
    step_limit comp_limit C_limit = Ok st ->
  rxn_marks_ok [] st.
Proof.
  unfold GetRawNetwork_run.
  destruct (start_expansion_ok comp_id_list)
    as (st0 & -> & _ & _ & _ & Hmarks & _).
  cbn [bind]. apply expansion_loop_marks. split; [|split].
  - intros k. rewrite Hmarks. by intros ?%not_elem_of_empty.
  - constructor.
  - intros r Hr. by apply elem_of_nil in Hr.
Qed.

End Repository.

End ExpanderFacts.

(** *** The marks only grow *)

Section MarksGrow.

Variable GetComp : string -> option MineRecord.
Variable GetRxn : string -> option MineRecord.
Variable completion : list string -> list string.
Variable set_iter : gset string -> list string.
Hypothesis set_iter_perm : forall s, set_iter s ≡ₚ elements s.
Variable comp_limit C_limit : Z.

Lemma explore_rxns_marks_grow (st0 : Expansion) (new_rxns : list (option MineRecord))
    (st : Expansion) (fl : Flow) :
  marks_grow st0 st ->
  explore_rxns set_iter comp_limit C_limit new_rxns st = Ok fl ->
  marks_grow st0 (flow_state fl).
Proof.
  intros Hst Hrun.
  destruct (explore_rxns_rule set_iter comp_limit C_limit
              (fun _ st => marks_grow st0 st) (fun st => marks_grow st0 st))
    with (new_rxns := new_rxns) (st := st) as (fl' & Hfl' & HP); auto.
  2:{ rewrite Hrun in Hfl'. injection Hfl' as <-. by destruct fl. }
  clear st Hst Hrun. intros rxn rxn_id rest st Hid [Hc Hr].
  destruct (scan_rxn_comps_spec C_limit rxn_id (ExtractReactionCompIds rxn) st ∅)
    as (st1 & new & Hscan & _ & _ & _ & _ & Hca & Hnew & _ & Hcm & _ & Hrm).
  assert (Hst1 : marks_grow st0 st1).
  { split; intros x Hx; [by apply Hcm, Hc|by apply Hrm, Hr]. }
  exists st1, new. split; [exact Hscan|]. split; [done|]. intros _.
  destruct (harvest_spec comp_limit (set_iter new)
              (mkExpansion (comp_dict st1) (<[rxn_id := rxn]> (rxn_dict st1))
                 (comps st1) (extended_comp_ids st1) (rxn_exceeding_C_limit st1)
                 (comp_exceeding_C_limit st1) (comp_cache st1)))
    as (fl' & Hfl' & _ & _ & Hre & Hce & _).
  { intros x Hx. apply (elem_of_set_iter set_iter set_iter_perm) in Hx.
    simpl. rewrite Hca.
    destruct (Hnew x Hx) as [Hx'|(c & -> & _)]; [|eauto].
    by apply not_elem_of_empty in Hx'. }
  exists fl'. split; [exact Hfl'|]. simpl in Hre, Hce.
  assert (marks_grow st0 (flow_state fl')).
  { unfold marks_grow. rewrite Hre, Hce. exact Hst1. }
  by destruct fl'.
Qed.

Lemma expansion_step_marks_grow (st : Expansion) (fl : Flow) :
  expansion_step GetComp GetRxn completion set_iter comp_limit C_limit st = Ok fl ->
  marks_grow st (flow_state fl).
Proof.
  unfold expansion_step.
  destruct (collect_rxn_ids _ _ _) as [wanted|]; cbn [bind]; [|discriminate].
  destruct (explore_rxns _ _ _ _ _) as [fl'|] eqn:Hexplore; cbn [bind];
    [|discriminate].
  apply (explore_rxns_marks_grow st) in Hexplore; [|by split].
  destruct fl' as [st2|st2]; intros [= <-]; exact Hexplore.
Qed.

Lemma expansion_loop_marks_grow (turns : nat) :
  forall st st',
    expansion_loop GetComp GetRxn completion set_iter turns comp_limit C_limit st
    = Ok st' ->
    marks_grow st st'.
Proof.
  induction turns as [|turns IH]; intros st st'; simpl.
  - by intros [= <-].
  - destruct (expansion_step _ _ _ _ _ _ _) as [fl|] eqn:Hstep; cbn [bind];
      [|discriminate].
    apply expansion_step_marks_grow in Hstep as [Hc Hr].
    destruct fl as [st1|st1].
    + intros [Hc' Hr']%IH. split; etrans; eauto.
    + by intros [= <-].
Qed.

(** A run cut short after [n] turns has marked no id that the run of
    [n + m] turns has not. *)
Lemma expansion_loop_prefix_marks (n m : nat) :
  forall st st_n st_f,
    expansion_loop GetComp GetRxn completion set_iter n comp_limit C_limit st
    = Ok st_n ->
    expansion_loop GetComp GetRxn completion set_iter (n + m) comp_limit C_limit st
    = Ok st_f ->
    marks_grow st_n st_f.
Proof.
  induction n as [|n IH]; intros st st_n st_f; simpl.
  - intros [= <-]. apply expansion_loop_marks_grow.
  - destruct (expansion_step _ _ _ _ _ _ _) as [fl|]; cbn [bind]; [|discriminate].
    destruct fl as [st1|st1]; [apply IH|].
    intros [= <-] [= <-]. by split.
Qed.

End MarksGrow.

(** ** GetRawNetwork: limits and exclusions *)


Lemma repo_comp_own_id : answers_own_id repo_comp.
Proof.
  intros k r k'. unfold repo_comp.
  destruct (String.eqb_spec k "A") as [->|_]; [by intros [= <-] [= <-]|].
  destruct (String.eqb_spec k "B") as [->|_]; [by intros [= <-] [= <-]|].
  destruct (String.eqb_spec k "D") as [->|_]; [by intros [= <-] [= <-]|].
  discriminate.
Qed.

Lemma repo_rxn_own_id : answers_own_id repo_rxn.
Proof.
  intros k r k'. unfold repo_rxn.
  destruct (String.eqb_spec k "R1") as [->|_]; [by intros [= <-] [= <-]|].
  destruct (String.eqb_spec k "R2") as [->|_]; [by intros [= <-] [= <-]|].
  discriminate.
Qed.



Example GetRawNetwork_repo_run :
  (st <- GetRawNetwork_run repo_comp repo_rxn in_order elements ["A"] 10 100000 25;;
   Ok (dom (comp_dict st), dom (rxn_dict st),
       comp_exceeding_C_limit st, rxn_exceeding_C_limit st, comps st))
  = Ok ({["A"; "D"]}, {["R2"]}, {["B"]}, {["R1"]}, 2).
Proof. vm_compute. reflexivity. Qed.

(** C5: in the state in which a run of [GetRawNetwork] returns, no id of the
    set of compounds exceeding the carbon limit is a key of the returned
    compound dictionary, and no id of the set of reactions exceeding it is a
    key of the returned reaction dictionary; the same holds for every id that
    is in one of the two sets when the run is cut short at an earlier step.
    The repository is taken to answer a query with the record of the queried
    id. *)
Theorem GetRawNetwork_exceeding_excluded
    (GetComp GetRxn : string -> option MineRecord)
    (completion : list string -> list string)
    (set_iter : gset string -> list string)
    (comp_id_list : list string) (step_limit comp_limit C_limit : Z) :
  (forall s, set_iter s ≡ₚ elements s) ->
  (forall l, completion l ≡ₚ l) ->
  answers_own_id GetComp -> answers_own_id GetRxn ->
  exists st,
    GetRawNetwork_run GetComp GetRxn completion set_iter comp_id_list
      step_limit comp_limit C_limit = Ok st
    /\ GetRawNetwork GetComp GetRxn completion set_iter comp_id_list
         step_limit comp_limit C_limit = Ok (comp_dict st, rxn_dict st)
    /\ (forall k, k ∈ comp_exceeding_C_limit st -> k ∉ dom (comp_dict st))
    /\ (forall k, k ∈ rxn_exceeding_C_limit st -> k ∉ dom (rxn_dict st))
    /\ (forall earlier st_e,
          earlier <= step_limit ->
          GetRawNetwork_run GetComp GetRxn completion set_iter comp_id_list
            earlier comp_limit C_limit = Ok st_e ->
          (forall k, k ∈ comp_exceeding_C_limit st_e -> k ∉ dom (comp_dict st))
          /\ (forall k, k ∈ rxn_exceeding_C_limit st_e -> k ∉ dom (rxn_dict st))).
Proof.
  intros Hset Hcompletion Hcomp Hrxn. unfold GetRawNetwork.
  destruct (GetRawNetwork_run_ok GetComp GetRxn completion set_iter Hset Hcompletion
              comp_limit C_limit comp_id_list step_limit)
    as (st & Hrun & Hvals & _).
  pose proof (GetRawNetwork_run_comps GetComp GetRxn completion set_iter Hset
                Hcompletion comp_limit C_limit Hcomp comp_id_list step_limit st Hrun)
    as (Hdict & _ & Hcmarks).
  pose proof (GetRawNetwork_run_marks GetComp GetRxn completion set_iter Hset
                Hcompletion comp_limit C_limit Hrxn comp_id_list step_limit st Hrun)
    as (Hrmarks & _).
  assert (Hc : forall k, k ∈ comp_exceeding_C_limit st -> k ∉ dom (comp_dict st)).
  { intros k (c & Hget & Hover)%Hcmarks [c' Hk]%elem_of_dom.
    pose proof (Hvals k c' Hk) as Hpass. apply Hdict in Hk. congruence. }
  assert (Hr : forall k, k ∈ rxn_exceeding_C_limit st -> k ∉ dom (rxn_dict st)).
  { intros k Hk%Hrmarks. by apply not_elem_of_dom. }
  exists st. rewrite Hrun. split; [done|]. split; [done|].
  split; [exact Hc|]. split; [exact Hr|].
  intros earlier st_e Hle Hearly.
  assert (Hgrow : marks_grow st_e st).
  { unfold GetRawNetwork_run in Hrun, Hearly.
    destruct (start_expansion _ _ _ _) as [st0|]; cbn [bind] in *; [|discriminate].
    assert (Hsplit : Z.to_nat step_limit
                     = (Z.to_nat earlier + (Z.to_nat step_limit - Z.to_nat earlier))%nat)
      by lia.
    rewrite Hsplit in Hrun.
    exact (expansion_loop_prefix_marks GetComp GetRxn completion set_iter Hset
             comp_limit C_limit _ _ st0 st_e st Hearly Hrun). }
  destruct Hgrow as [Hgc Hgr].
  split; intros k Hk; [by apply Hc, Hgc|by apply Hr, Hgr].
Qed.

Lemma GetRawNetwork_exceeding_excluded_witness :
  exists st,
    GetRawNetwork_run repo_comp repo_rxn in_order elements ["A"] 10 100000 25 = Ok st
    /\ ("B" ∈ comp_exceeding_C_limit st) /\ ("B" ∉ dom (comp_dict st))
    /\ ("R1" ∈ rxn_exceeding_C_limit st) /\ ("R1" ∉ dom (rxn_dict st)).
Proof.
  destruct (GetRawNetwork_exceeding_excluded repo_comp repo_rxn in_order elements
              ["A"] 10 100000 25)
    as (st & Hrun & _ & Hcomp & Hrxn & _).
  - intros s. reflexivity.
  - intros l. reflexivity.
  - exact repo_comp_own_id.
  - exact repo_rxn_own_id.
  - exists st. split; [exact Hrun|].
    assert (HB : "B" ∈ comp_exceeding_C_limit st).
    { vm_compute in Hrun. injection Hrun as <-. vm_compute. reflexivity. }
    assert (HR : "R1" ∈ rxn_exceeding_C_limit st).
    { vm_compute in Hrun. injection Hrun as <-. vm_compute. reflexivity. }
    auto.
Defined.



